(** * remax-cli, web target: the webpack configuration assembler

    A shallow embedding of
    [packages/remax-cli/src/web/webpackConfig.web.ts]: [useLoader],
    [prepare] and [webpackConfig], together with the parts of the
    platform they run on (JavaScript strings, Node's [path] module, the
    [webpack-chain] builder) that their behaviour depends on. *)

From stdpp Require Import gmap strings list fin_maps.
From Stdlib Require Import Ascii String ZArith.

Local Open Scope string_scope.
Local Open Scope Z_scope.

(** ** Completion values: a JavaScript call returns or throws *)

Inductive Error :=
| ReferenceError (identifier : string)        (* "<identifier> is not defined" *)
| ModuleNotFound (request : string)           (* require.resolve found nothing *)
| TypeError (what : string)
| SyntaxError (what : string)                 (* new RegExp(source): not a pattern *)
| Thrown (what : string).                     (* anything a collaborator throws *)

Inductive Res (A : Type) :=
| Ok (a : A)
| Throw (e : Error).
Arguments Ok {A} a.
Arguments Throw {A} e.

#[global] Instance Res_ret : MRet Res := fun _ a => Ok a.
#[global] Instance Res_bind : MBind Res := fun _ _ f m =>
  match m with Ok a => f a | Throw e => Throw e end.

Definition is_Ok {A} (r : Res A) : bool :=
  match r with Ok _ => true | Throw _ => false end.

(** ** JavaScript strings (code units modelled as bytes) *)

Module JsString.

(** [strip_prefix p s = Some r] exactly when [s = p +:+ r]. *)
Fixpoint strip_prefix (p s : string) : option string :=
  match p, s with
  | EmptyString, _ => Some s
  | String a p', String b s' =>
      if Ascii.eqb a b then strip_prefix p' s' else None
  | String _ _, EmptyString => None
  end.

(** [String.prototype.replace(pattern, replacement)] with a string
    pattern: only the leftmost occurrence is replaced, wherever it is.
    (The replacement is inserted literally; the source only ever
    passes the empty replacement.) *)
Fixpoint replace (pattern replacement s : string) : string :=
  match strip_prefix pattern s with
  | Some rest => replacement +:+ rest
  | None =>
      match s with
      | EmptyString => EmptyString
      | String c s' => String c (replace pattern replacement s')
      end
  end.

Fixpoint last_char (s : string) : option ascii :=
  match s with
  | EmptyString => None
  | String c EmptyString => Some c
  | String _ s' => last_char s'
  end.

Definition first_char (s : string) : option ascii :=
  match s with EmptyString => None | String c _ => Some c end.

Fixpoint take (n : nat) (s : string) : string :=
  match n, s with
  | S n', String c s' => String c (take n' s')
  | _, _ => EmptyString
  end.

Fixpoint drop (n : nat) (s : string) : string :=
  match n, s with
  | S n', String _ s' => drop n' s'
  | _, _ => s
  end.

(** [s.slice(from, to)] for [0 <= from]. *)
Definition slice (from to : Z) (s : string) : string :=
  take (Z.to_nat (to - from)) (drop (Z.to_nat from) s).

Fixpoint join (sep : string) (parts : list string) : string :=
  match parts with
  | [] => EmptyString
  | [p] => p
  | p :: rest => p +:+ sep +:+ join sep rest
  end.

End JsString.

(** ** The pattern fragment of [new RegExp(ext + "$")]

    [prepare] builds a pattern from a file extension followed by the
    end anchor.  The fragment covers sources made of ordinary
    characters and the wildcard [.]; any other syntax character puts
    the source outside the fragment, and what the engine does with
    such a source (compile another pattern, or throw a SyntaxError) is
    left to the world the assembler runs in. *)

Module JsRegExp.

Inductive Atom :=
| AnyChar                (* [.]: every character but a line terminator *)
| Lit (c : ascii).

(** A pattern of the fragment: atoms, then [$] (no [m] flag: end of
    input only). *)
Definition Pattern := list Atom.

Definition syntax_character (c : ascii) : bool :=
  bool_decide (c ∈ ["\"; "^"; "$"; "*"; "+"; "?"; "("; ")"; "["; "]"; "{"; "}"; "|"]%char).

Definition line_terminator (c : ascii) : bool :=
  bool_decide (c ∈ ["010"; "013"]%char).

Fixpoint atoms (source : string) : option Pattern :=
  match source with
  | EmptyString => Some []
  | String c rest =>
      if syntax_character c then None
      else
        tl ← atoms rest;
        Some ((if Ascii.eqb c "." then AnyChar else Lit c) :: tl)
  end.

Definition atom_matches (a : Atom) (c : ascii) : bool :=
  match a with
  | AnyChar => negb (line_terminator c)
  | Lit d => Ascii.eqb d c
  end.

(** The atoms match all of [s], so that [$] holds after them. *)
Fixpoint matches_to_end (p : Pattern) (s : string) : bool :=
  match p, s with
  | [], EmptyString => true
  | a :: p', String c s' => atom_matches a c && matches_to_end p' s'
  | _, _ => false
  end.

(** [s.replace(re, replacement)] for an anchored pattern without the
    [g] flag: the leftmost match is replaced. *)
Fixpoint replace (p : Pattern) (replacement s : string) : string :=
  if matches_to_end p s then replacement
  else
    match s with
    | EmptyString => EmptyString
    | String c s' => String c (replace p replacement s')
    end.

End JsRegExp.

(** ** Node's [path] module (POSIX flavour) *)

Module path.

Fixpoint split (s : string) : list string :=
  match s with
  | EmptyString => [EmptyString]
  | String c s' =>
      if Ascii.eqb c "/" then EmptyString :: split s'
      else
        match split s' with
        | h :: t => String c h :: t
        | [] => [String c EmptyString]
        end
  end.

(** [normalizeString]: resolves [.] and [..] segments; the result is
    kept as the reversed list of the segments retained so far. *)
Fixpoint normalize_segments (allowAboveRoot : bool)
    (segments : list string) (rev_res : list string) : list string :=
  match segments with
  | [] => rev_res
  | seg :: rest =>
      if bool_decide (seg = "" ∨ seg = ".") then
        normalize_segments allowAboveRoot rest rev_res
      else if bool_decide (seg = "..") then
        match rev_res with
        | last :: before =>
            if bool_decide (last = "..") then
              normalize_segments allowAboveRoot rest
                (if allowAboveRoot then ".." :: rev_res else rev_res)
            else normalize_segments allowAboveRoot rest before
        | [] =>
            normalize_segments allowAboveRoot rest
              (if allowAboveRoot then [".."] else [])
        end
      else normalize_segments allowAboveRoot rest (seg :: rev_res)
  end.

Definition normalize (p : string) : string :=
  if bool_decide (p = "") then "."
  else
    let isAbsolute := bool_decide (JsString.first_char p = Some "/"%char) in
    let trailingSeparator := bool_decide (JsString.last_char p = Some "/"%char) in
    let res :=
      JsString.join "/"
        (rev (normalize_segments (negb isAbsolute) (split p) [])) in
    if bool_decide (res = "") then
      if isAbsolute then "/" else if trailingSeparator then "./" else "."
    else
      let res := if trailingSeparator then res +:+ "/" else res in
      if isAbsolute then "/" +:+ res else res.

(** [path.join(...args)]: the non-empty arguments joined by [/], then
    normalised. *)
Definition join (args : list string) : string :=
  match filter (λ a, a ≠ "") args with
  | [] => "."
  | parts => normalize (JsString.join "/" parts)
  end.

(** [path.extname]: Node's right-to-left scan. *)
Record ExtScan := {
  startDot : Z;
  startPart : Z;
  end_ : Z;
  matchedSlash : bool;
  preDotState : Z;
}.

Fixpoint extname_scan (rev_codes : list ascii) (i : Z) (st : ExtScan) : ExtScan :=
  match rev_codes with
  | [] => st
  | code :: before =>
      if Ascii.eqb code "/" then
        if negb (matchedSlash st) then
          (* break *)
          {| startDot := startDot st; startPart := i + 1; end_ := end_ st;
             matchedSlash := matchedSlash st; preDotState := preDotState st |}
        else extname_scan before (i - 1) st
      else
        let st1 :=
          if end_ st =? -1 then
            {| startDot := startDot st; startPart := startPart st; end_ := i + 1;
               matchedSlash := false; preDotState := preDotState st |}
          else st in
        let st2 :=
          if Ascii.eqb code "." then
            if startDot st1 =? -1 then
              {| startDot := i; startPart := startPart st1; end_ := end_ st1;
                 matchedSlash := matchedSlash st1; preDotState := preDotState st1 |}
            else if negb (preDotState st1 =? 1) then
              {| startDot := startDot st1; startPart := startPart st1; end_ := end_ st1;
                 matchedSlash := matchedSlash st1; preDotState := 1 |}
            else st1
          else if negb (startDot st1 =? -1) then
            {| startDot := startDot st1; startPart := startPart st1; end_ := end_ st1;
               matchedSlash := matchedSlash st1; preDotState := -1 |}
          else st1 in
        extname_scan before (i - 1) st2
  end.

Definition extname (p : string) : string :=
  let codes := list_ascii_of_string p in
  let st :=
    extname_scan (rev codes) (Z.of_nat (List.length codes) - 1)
      {| startDot := -1; startPart := 0; end_ := -1;
         matchedSlash := true; preDotState := 0 |} in
  if (startDot st =? -1) || (end_ st =? -1) || (preDotState st =? 0)
     || ((preDotState st =? 1) && (startDot st =? end_ st - 1)
         && (startDot st =? startPart st + 1))
  then ""
  else JsString.slice (startDot st) (end_ st) p.

End path.

(** ** Data of the assembler *)

(** A regular expression object, by its source and flags.  What it
    matches is decided by the engine that runs it; the matching
    semantics enters the development as [regexp_test] below. *)
Record RegExp := { re_source : string; re_flags : string }.

#[global] Instance RegExp_eq_dec : EqDecision RegExp.
Proof. solve_decision. Defined.

(** Modelled from the spec: the CSS-module policy of the build options,
    declared in [remax-types] (not part of the file): an enabled flag
    and a matching rule, [{enabled, regExp}].  The assembler reads the
    two fields off what [styleConfig.getCssModuleConfig] makes of
    [options.cssModules]. *)
Record CssModuleConfig := { enabled : bool; regExp : RegExp }.

(** JavaScript functions are reference values; what a call does is
    given by the world the assembler runs in. *)
Definition FunctionRef := nat.

Inductive ConfigWebpack :=
| cw_undefined
| cw_not_callable (description : string)
| cw_function (f : FunctionRef).

(** Modelled from the spec: the build options ([RemaxOptions] of
    [remax-types], not part of the file), with the fields the file
    reads: working directory, root source directory, output directory,
    CSS-module policy, progress flag, optional override callback. *)
Record RemaxOptions := {
  cwd : string;
  rootDir : string;
  output : string;
  cssModules : CssModuleConfig;
  progress : bool;
  configWebpack : ConfigWebpack;
}.

(** Modelled from the spec: the build target ([Platform] of
    [../build/platform], not part of the file), carried by its name. *)
Definition Platform := string.

(** Modelled from the spec: what [getEntries] returns, one app entry
    file path and an ordered sequence of page entry file paths. *)
Record Entries := { entries_app : string; entries_pages : list string }.

(** Modelled from the spec: what [getEnvironment] returns, a mapping
    from variable name to value and its stringified form. *)
Record Environment := {
  env_raw : list (string * string);
  stringified : list (string * string);
}.

(** *** What the builder stores *)

Inductive Condition :=
| CondRegExp (r : RegExp)
| CondString (s : string).

#[global] Instance Condition_eq_dec : EqDecision Condition.
Proof. solve_decision. Defined.

(** Babel plugins made by the factories of [../build/plugins]. *)
Inductive BabelPlugin :=
| babel_app (appEntry : string)
| babel_page (pages : list string)
| babel_nativeComponents (options : RemaxOptions)
| babel_components (options : RemaxOptions).

Inductive PostcssPlugin := pxToUnits_plugin.

Inductive LoaderOptions :=
| BabelOptions (usePlugins : list BabelPlugin) (reactPreset : bool)
| CssOptions (importLoaders : nat) (modules : option bool)
| PostcssOptions (configPath : string) (plugins : list PostcssPlugin)
| EmptyOptions.

Record Use := { use_loader : option string; use_options : option LoaderOptions }.

Record Rule := {
  rule_test : option RegExp;
  rule_include : list Condition;
  rule_exclude : list Condition;
  rule_uses : list (string * Use);
}.

Inductive PluginInstance :=
| new_VirtualModulePlugin (moduleName contents : string)
| new_ProgressPlugin
| new_DefinePlugin (definitions : list (string * string))
| new_MiniCssExtractPlugin (filename : string)
| new_OptimizeEntries
| new_NativeFiles (options : RemaxOptions)
| new_CleanWebpackPlugin.

Inductive PluginArg := VirtualModuleOptions (moduleName contents : string).

Inductive PluginValue :=
| Constructor (class_name : string)
| Instance (i : PluginInstance).

Record Plugin := { plugin_plugin : option PluginValue; plugin_args : list PluginArg }.

Inductive Devtool := devtool_false | devtool_string (s : string).

(** The [webpack-chain] builder ([new Config()]): ordered maps are
    association lists in insertion order, sets are duplicate-free lists
    in insertion order. *)
Record Config := {
  entryPoints : list (string * list string);
  cfg_devtool : option Devtool;
  cfg_mode : option string;
  cfg_context : option string;
  resolve_extensions : list string;
  resolve_alias : list (string * string);
  output_path : option string;
  output_filename : option string;
  module_rules : list (string * Rule);
  plugins : list (string * Plugin);
}.

Definition new_Config : Config :=
  {| entryPoints := []; cfg_devtool := None; cfg_mode := None; cfg_context := None;
     resolve_extensions := []; resolve_alias := []; output_path := None;
     output_filename := None; module_rules := []; plugins := [] |}.

Definition new_Rule : Rule :=
  {| rule_test := None; rule_include := []; rule_exclude := []; rule_uses := [] |}.
Definition new_Use : Use := {| use_loader := None; use_options := None |}.
Definition new_Plugin : Plugin := {| plugin_plugin := None; plugin_args := [] |}.

(** *** What [toConfig] hands to webpack *)

Record UseConfig := { uc_loader : option string; uc_options : option LoaderOptions }.

Record RuleConfig := {
  rc_test : option RegExp;
  rc_include : list Condition;
  rc_exclude : list Condition;
  rc_use : list UseConfig;
}.

Record Configuration := {
  c_entry : list (string * list string);
  c_devtool : option Devtool;
  c_mode : option string;
  c_context : option string;
  c_resolve_extensions : list string;
  c_resolve_alias : list (string * string);
  c_output_path : option string;
  c_output_filename : option string;
  c_module_rules : list RuleConfig;
  c_plugins : list PluginInstance;
}.

(** ** [webpack-chain]: [ChainedMap] and [ChainedSet] *)

Module ChainedMap.

Fixpoint get {V} (key : string) (m : list (string * V)) : option V :=
  match m with
  | [] => None
  | (k, v) :: rest => if String.eqb k key then Some v else get key rest
  end.

(** [set]: an existing key keeps its position, a new key goes last. *)
Fixpoint set {V} (key : string) (value : V) (m : list (string * V)) : list (string * V) :=
  match m with
  | [] => [(key, value)]
  | (k, v) :: rest =>
      if String.eqb k key then (k, value) :: rest else (k, v) :: set key value rest
  end.

Definition has {V} (key : string) (m : list (string * V)) : bool :=
  bool_decide (is_Some (get key m)).

(** [getOrCompute(key, fn)] followed by an in-place change of the
    value it returns. *)
Definition update {V} (key : string) (fresh : V) (f : V → V) (m : list (string * V))
    : list (string * V) :=
  set key (f (default fresh (get key m))) m.

Definition keys {V} (m : list (string * V)) : list string := m.*1.
Definition values {V} (m : list (string * V)) : list V := m.*2.

End ChainedMap.

Module ChainedSet.

Definition add {A} `{EqDecision A} (x : A) (s : list A) : list A :=
  if bool_decide (x ∈ s) then s else s ++ [x].

(** [merge(arr)]: [new Set([...store, ...arr])].  Members are compared
    by value; the sets of the file hold strings and the RegExp of the
    CSS-module configuration. *)
Definition merge {A} `{EqDecision A} (arr : list A) (s : list A) : list A :=
  foldl (λ acc x, add x acc) s arr.

End ChainedSet.

(** ** The world the assembler runs in

    The process, the file system, the module resolver, and the modules
    of the package that the file imports but that are not part of it. *)
Inductive Probe := Present | Absent | ProbeFails (e : Error).

Record World := {
  NODE_ENV : option string;                           (* process.env.NODE_ENV *)
  dirname : string;                                   (* __dirname *)
  fs_existsSync : string → Probe;
  require_resolve : string → Res string;
  camelCase : string → string;                        (* lodash *)
  (* [subject.replace(new RegExp(source), '')] for a source outside
     the pattern fragment of [JsRegExp] *)
  replace_outside_fragment : string → string → Res string;
  MiniCssExtractPlugin_loader : string;
  (* ../getEntries, ../build/env, ../build/alias, ../extensions *)
  getEntries : RemaxOptions → Res Entries;
  getEnvironment : RemaxOptions → Platform → Environment;
  alias : RemaxOptions → list (string * string);
  extensions : list string;
  matcher : RegExp;
  (* ../build/styleConfig *)
  getCssModuleConfig : CssModuleConfig → CssModuleConfig;
  resolvePostcssConfig : RemaxOptions → string;
  styleConfig_enabled : string → bool;
  (* the behaviour of the functions options may carry: the callee
     receives the builder and changes it in place *)
  call_function : FunctionRef → Config → Res () * Config;
}.

(** ** Module state and the monad of the module's functions

    [const config = new Config()] is evaluated once, when the module is
    loaded: the builder is state that outlives a call of
    [webpackConfig].  The state further records what a call does to
    the outside: the invocations of the user's callback and the
    configurations written to the console. *)

Inductive Event :=
| HookInvoked (f : FunctionRef)
| ConsoleLog (c : Configuration).

Record State := { config : Config; events : list Event }.

(** The state right after the module is loaded. *)
Definition module_loaded : State := {| config := new_Config; events := [] |}.

Definition M (A : Type) : Type := State → Res A * State.

#[global] Instance M_ret : MRet M := λ _ a st, (Ok a, st).
#[global] Instance M_bind : MBind M := λ _ _ f m st,
  match m st with
  | (Ok a, st') => f a st'
  | (Throw e, st') => (Throw e, st')
  end.

Definition lift {A} (r : Res A) : M A := λ st, (r, st).
Definition modify (f : Config → Config) : M () :=
  λ st, (Ok (), {| config := f (config st); events := events st |}).
Definition emit (e : Event) : M () :=
  λ st, (Ok (), {| config := config st; events := events st ++ [e] |}).
Definition get_config : M Config := λ st, (Ok (config st), st).

Fixpoint forEach {A} (l : list A) (f : A → M ()) : M () :=
  match l with
  | [] => mret ()
  | x :: rest => f x ;; forEach rest f
  end.

(** *** Identifier resolution

    The bindings the module itself makes (imports and top-level
    declarations), and the bindings Node provides to every module. *)
Definition module_bindings : list string :=
  [ "path"; "fs"; "camelCase"; "ProgressPlugin"; "DefinePlugin"; "Config";
    "MiniCssExtractPlugin"; "CleanWebpackPlugin"; "pxToUnits"; "extensions";
    "matcher"; "getEntries"; "styleConfig"; "app"; "page";
    "nativeComponentsBabelPlugin"; "components"; "RemaxPlugins"; "alias";
    "getEnvironment"; "config"; "useLoader"; "prepare"; "webpackConfig" ].

Definition node_bindings : list string :=
  [ "process"; "console"; "require"; "__dirname"; "JSON"; "RegExp"; "Boolean";
    "module"; "exports"; "__filename" ].

(** Evaluating an identifier that nothing binds throws. *)
Definition identifier (x : string) : M () :=
  if bool_decide (x ∈ (module_bindings ++ node_bindings)%list) then mret ()
  else lift (Throw (ReferenceError x)).

(** *** The builder's chain methods *)

Definition update_rule (name : string) (f : Rule → Rule) (c : Config) : Config :=
  {| entryPoints := entryPoints c; cfg_devtool := cfg_devtool c; cfg_mode := cfg_mode c;
     cfg_context := cfg_context c; resolve_extensions := resolve_extensions c;
     resolve_alias := resolve_alias c; output_path := output_path c;
     output_filename := output_filename c;
     module_rules := ChainedMap.update name new_Rule f (module_rules c);
     plugins := plugins c |}.

Definition update_plugin (name : string) (f : Plugin → Plugin) (c : Config) : Config :=
  {| entryPoints := entryPoints c; cfg_devtool := cfg_devtool c; cfg_mode := cfg_mode c;
     cfg_context := cfg_context c; resolve_extensions := resolve_extensions c;
     resolve_alias := resolve_alias c; output_path := output_path c;
     output_filename := output_filename c; module_rules := module_rules c;
     plugins := ChainedMap.update name new_Plugin f (plugins c) |}.

Definition update_use (name : string) (f : Use → Use) (r : Rule) : Rule :=
  {| rule_test := rule_test r; rule_include := rule_include r;
     rule_exclude := rule_exclude r;
     rule_uses := ChainedMap.update name new_Use f (rule_uses r) |}.

(** [config.entry(name).add(value)] *)
Definition entry_add (name value : string) : M () :=
  modify (λ c,
    {| entryPoints := ChainedMap.update name [] (ChainedSet.add value) (entryPoints c);
       cfg_devtool := cfg_devtool c; cfg_mode := cfg_mode c; cfg_context := cfg_context c;
       resolve_extensions := resolve_extensions c; resolve_alias := resolve_alias c;
       output_path := output_path c; output_filename := output_filename c;
       module_rules := module_rules c; plugins := plugins c |}).

(** [config.devtool(v)], [config.mode(v)], [config.context(v)],
    [config.output.path(v)], [config.output.filename(v)] *)
Definition set_devtool (v : Devtool) : M () :=
  modify (λ c,
    {| entryPoints := entryPoints c; cfg_devtool := Some v; cfg_mode := cfg_mode c;
       cfg_context := cfg_context c; resolve_extensions := resolve_extensions c;
       resolve_alias := resolve_alias c; output_path := output_path c;
       output_filename := output_filename c; module_rules := module_rules c;
       plugins := plugins c |}).
Definition set_mode (v : string) : M () :=
  modify (λ c,
    {| entryPoints := entryPoints c; cfg_devtool := cfg_devtool c; cfg_mode := Some v;
       cfg_context := cfg_context c; resolve_extensions := resolve_extensions c;
       resolve_alias := resolve_alias c; output_path := output_path c;
       output_filename := output_filename c; module_rules := module_rules c;
       plugins := plugins c |}).
Definition set_context (v : string) : M () :=
  modify (λ c,
    {| entryPoints := entryPoints c; cfg_devtool := cfg_devtool c; cfg_mode := cfg_mode c;
       cfg_context := Some v; resolve_extensions := resolve_extensions c;
       resolve_alias := resolve_alias c; output_path := output_path c;
       output_filename := output_filename c; module_rules := module_rules c;
       plugins := plugins c |}).
Definition set_output_path (v : string) : M () :=
  modify (λ c,
    {| entryPoints := entryPoints c; cfg_devtool := cfg_devtool c; cfg_mode := cfg_mode c;
       cfg_context := cfg_context c; resolve_extensions := resolve_extensions c;
       resolve_alias := resolve_alias c; output_path := Some v;
       output_filename := output_filename c; module_rules := module_rules c;
       plugins := plugins c |}).
Definition set_output_filename (v : string) : M () :=
  modify (λ c,
    {| entryPoints := entryPoints c; cfg_devtool := cfg_devtool c; cfg_mode := cfg_mode c;
       cfg_context := cfg_context c; resolve_extensions := resolve_extensions c;
       resolve_alias := resolve_alias c; output_path := output_path c;
       output_filename := Some v; module_rules := module_rules c;
       plugins := plugins c |}).

(** [config.resolve.extensions.merge(arr)] and
    [config.resolve.alias.merge(obj)] (string values: each key is set) *)
Definition resolve_extensions_merge (arr : list string) : M () :=
  modify (λ c,
    {| entryPoints := entryPoints c; cfg_devtool := cfg_devtool c; cfg_mode := cfg_mode c;
       cfg_context := cfg_context c;
       resolve_extensions := ChainedSet.merge arr (resolve_extensions c);
       resolve_alias := resolve_alias c; output_path := output_path c;
       output_filename := output_filename c; module_rules := module_rules c;
       plugins := plugins c |}).
Definition resolve_alias_merge (obj : list (string * string)) : M () :=
  modify (λ c,
    {| entryPoints := entryPoints c; cfg_devtool := cfg_devtool c; cfg_mode := cfg_mode c;
       cfg_context := cfg_context c; resolve_extensions := resolve_extensions c;
       resolve_alias := foldl (λ m kv, ChainedMap.set kv.1 kv.2 m) (resolve_alias c) obj;
       output_path := output_path c; output_filename := output_filename c;
       module_rules := module_rules c; plugins := plugins c |}).

(** [config.module.rule(name)] followed by one chained call *)
Definition rule_set_test (name : string) (re : RegExp) : M () :=
  modify (update_rule name (λ r,
    {| rule_test := Some re; rule_include := rule_include r;
       rule_exclude := rule_exclude r; rule_uses := rule_uses r |})).
Definition rule_include_add (name : string) (c : Condition) : M () :=
  modify (update_rule name (λ r,
    {| rule_test := rule_test r; rule_include := ChainedSet.add c (rule_include r);
       rule_exclude := rule_exclude r; rule_uses := rule_uses r |})).
Definition rule_include_merge (name : string) (cs : list Condition) : M () :=
  modify (update_rule name (λ r,
    {| rule_test := rule_test r; rule_include := ChainedSet.merge cs (rule_include r);
       rule_exclude := rule_exclude r; rule_uses := rule_uses r |})).
Definition rule_exclude_add (name : string) (c : Condition) : M () :=
  modify (update_rule name (λ r,
    {| rule_test := rule_test r; rule_include := rule_include r;
       rule_exclude := ChainedSet.add c (rule_exclude r); rule_uses := rule_uses r |})).

(** [rule.use(name)], then [.loader(l)] and [.options(o)] on that use *)
Definition rule_use (rule name : string) : M () :=
  modify (update_rule rule (update_use name (λ u, u))).
Definition use_set_loader (rule name : string) (l : string) : M () :=
  modify (update_rule rule (update_use name (λ u,
    {| use_loader := Some l; use_options := use_options u |}))).
Definition use_set_options (rule name : string) (o : LoaderOptions) : M () :=
  modify (update_rule rule (update_use name (λ u,
    {| use_loader := use_loader u; use_options := Some o |}))).

(** [config.plugin(name)], then [.use(plugin, args)] on it *)
Definition plugin (name : string) : M () :=
  modify (update_plugin name (λ p, p)).
Definition plugin_use (name : string) (v : PluginValue) (args : list PluginArg) : M () :=
  modify (update_plugin name (λ _, {| plugin_plugin := Some v; plugin_args := args |})).

(** *** [config.toConfig()] *)

Definition instantiate (class_name : string) (args : list PluginArg) : Res PluginInstance :=
  match args with
  | [VirtualModuleOptions moduleName contents] =>
      if bool_decide (class_name = "VirtualModulePlugin")
      then Ok (new_VirtualModulePlugin moduleName contents)
      else Throw (TypeError (class_name +:+ " is not a constructor"))
  | _ => Throw (TypeError (class_name +:+ " is not a constructor"))
  end.

Definition Plugin_toConfig (p : Plugin) : Res PluginInstance :=
  match plugin_plugin p with
  | None => Throw (TypeError "Cannot read property of undefined")
  | Some (Constructor class_name) => instantiate class_name (plugin_args p)
  | Some (Instance i) => Ok i
  end.

Definition Rule_toConfig (r : Rule) : RuleConfig :=
  {| rc_test := rule_test r; rc_include := rule_include r; rc_exclude := rule_exclude r;
     rc_use := (λ u, {| uc_loader := use_loader u; uc_options := use_options u |})
                 <$> ChainedMap.values (rule_uses r) |}.

Fixpoint mapRes {A B} (f : A → Res B) (l : list A) : Res (list B) :=
  match l with
  | [] => Ok []
  | x :: rest => y ← f x; ys ← mapRes f rest; mret (y :: ys)
  end.

Definition toConfig (c : Config) : Res Configuration :=
  ps ← mapRes Plugin_toConfig (ChainedMap.values (plugins c));
  mret {| c_entry := entryPoints c; c_devtool := cfg_devtool c; c_mode := cfg_mode c;
          c_context := cfg_context c; c_resolve_extensions := resolve_extensions c;
          c_resolve_alias := resolve_alias c; c_output_path := output_path c;
          c_output_filename := output_filename c;
          c_module_rules := Rule_toConfig <$> ChainedMap.values (module_rules c);
          c_plugins := ps |}.

(** ** The functions of [webpackConfig.web.ts] *)

Record PreprocessCssRule := {
  pp_name : string;
  pp_loader : string;
  pp_options : option LoaderOptions;
}.

Record Prepared := {
  p_entries : Entries;
  p_entryMap : gmap string string;
  p_env : Environment;
}.

(** [m[name] = entry] on an object literal: an own property is
    created or overwritten, except that assigning a string to
    [__proto__] changes nothing. *)
Definition object_set (m : gmap string string) (name entry : string) : gmap string string :=
  if bool_decide (name = "__proto__") then m else <[name := entry]> m.

Fixpoint reduce {A B} (f : B → A → Res B) (l : list A) (acc : B) : Res B :=
  match l with
  | [] => Ok acc
  | x :: rest => acc' ← f acc x; reduce f rest acc'
  end.

Fixpoint filter_Boolean {A} (l : list (option A)) : list A :=
  match l with
  | [] => []
  | Some x :: rest => x :: filter_Boolean rest
  | None :: rest => filter_Boolean rest
  end.

Definition double_quote : string := String (ascii_of_nat 34) EmptyString.

(** [JSON.stringify({ greeting: 'Hello!' })] *)
Definition greeting_json : string :=
  "{" +:+ double_quote +:+ "greeting" +:+ double_quote +:+ ":"
      +:+ double_quote +:+ "Hello!" +:+ double_quote +:+ "}".

Definition styles_test : RegExp :=
  {| re_source := "\.(css|less|sass|stylus)$"; re_flags := "i" |}.
Definition json_test : RegExp := {| re_source := "\.json$"; re_flags := "" |}.
Definition define_test : RegExp :=
  {| re_source := "remax\/esm\/createHostComponent.js"; re_flags := "i" |}.
Definition images_test : RegExp :=
  {| re_source := "\.(png|jpe?g|gif|svg)$"; re_flags := "i" |}.

Section Assembler.

Context (w : World).

(** *** [useLoader] (lines 25-36) *)

Definition override_path (id : string) : string :=
  path.join [dirname w; "./webpack/loaders"; camelCase w id +:+ ".js"].

Definition useLoader (id : string) : Res string :=
  (* the [try] block: [Ok (Some p)] is [return p], [Ok None] falls through *)
  let attempt : Res (option string) :=
    let loaderPath := override_path id in
    match fs_existsSync w loaderPath with
    | Present => Ok (Some loaderPath)
    | Absent => Ok None
    | ProbeFails e => Throw e
    end in
  let returned :=
    match attempt with
    | Ok r => r
    | Throw _ => None                     (* catch: ignore *)
    end in
  match returned with
  | Some loaderPath => Ok loaderPath
  | None => require_resolve w (id +:+ "-loader")
  end.

(** *** [prepare] (lines 38-53) *)

(** The name the callback of [reduce] computes (lines 41-42):
    [entry.replace(path.join(cwd, rootDir) + '/', '')], then
    [.replace(new RegExp(ext + '$'), '')]. *)
Definition entry_name (options : RemaxOptions) (entry : string) : Res string :=
  let ext := path.extname entry in
  let relative :=
    JsString.replace (path.join [cwd options; rootDir options] +:+ "/") "" entry in
  match JsRegExp.atoms ext with
  | Some re => Ok (JsRegExp.replace re "" relative)
  | None => replace_outside_fragment w (ext +:+ "$") relative
  end.

(** The callback of [reduce] (lines 40-45). *)
Definition entry_step (options : RemaxOptions) (m : gmap string string)
    (entry : string) : Res (gmap string string) :=
  name ← entry_name options entry;
  mret (object_set m name entry).

Definition prepare (options : RemaxOptions) (target : Platform) : Res Prepared :=
  entries ← getEntries w options;
  entryMap ←
    reduce (entry_step options) (entries_app entries :: entries_pages entries) ∅;
  let env := getEnvironment w options target in
  mret {| p_entries := entries; p_entryMap := entryMap; p_env := env |}.

(** *** [webpackConfig] (lines 55-217) *)

(** The body of both [preprocessCssRules.forEach] loops, on the rule
    that [stylesRule] refers to. *)
Definition use_preprocessCssRules (stylesRule : string)
    (preprocessCssRules : list PreprocessCssRule) : M () :=
  forEach preprocessCssRules (λ rule,
    rule_use stylesRule (pp_name rule) ;;
    use_set_loader stylesRule (pp_name rule) (pp_loader rule) ;;
    use_set_options stylesRule (pp_name rule) (default EmptyOptions (pp_options rule))).

Definition optional_preprocessor (module name id : string)
    : M (option PreprocessCssRule) :=
  if styleConfig_enabled w module then
    l ← lift (useLoader id);
    mret (Some {| pp_name := name; pp_loader := l; pp_options := None |})
  else mret None.

(** [options.configWebpack(config)] *)
Definition call_configWebpack (f : FunctionRef) : M () :=
  emit (HookInvoked f) ;;
  ((λ st, let '(r, c) := call_function w f (config st) in
          (r, {| config := c; events := events st |})) : M ()).

Definition webpackConfig (options : RemaxOptions) (target : Platform) : M Configuration :=
  p ← lift (prepare options target);
  let entries := p_entries p in
  let env := p_env p in

  entry_add "index" "src/index.js" ;;

  set_devtool (if bool_decide (NODE_ENV w = Some "development")
               then devtool_string "cheap-module-source-map" else devtool_false) ;;
  set_mode (match NODE_ENV w with
            | Some mode => if bool_decide (mode = "") then "development" else mode
            | None => "development"
            end) ;;
  set_context (cwd options) ;;
  resolve_extensions_merge (extensions w) ;;
  resolve_alias_merge (alias w options) ;;
  set_output_path (path.join [cwd options; output options]) ;;
  set_output_filename "[name].js" ;;

  rule_set_test "createAppOrPageConfig" (matcher w) ;;
  rule_include_add "createAppOrPageConfig" (CondString (entries_app entries)) ;;
  rule_include_merge "createAppOrPageConfig" (CondString <$> entries_pages entries) ;;
  rule_use "createAppOrPageConfig" "babel" ;;
  babel ← lift (useLoader "babel");
  use_set_loader "createAppOrPageConfig" "babel" babel ;;
  use_set_options "createAppOrPageConfig" "babel"
    (BabelOptions [babel_app (entries_app entries); babel_page (entries_pages entries)]
       false) ;;

  rule_set_test "compilation" (matcher w) ;;
  rule_use "compilation" "babel" ;;
  babel ← lift (useLoader "babel");
  use_set_loader "compilation" "babel" babel ;;
  use_set_options "compilation" "babel"
    (BabelOptions [babel_nativeComponents options; babel_components options] true) ;;

  let cssModuleConfig := getCssModuleConfig w (cssModules options) in
  postcss ← lift (useLoader "postcss");
  less ← optional_preprocessor "less" "less" "less";
  sass ← optional_preprocessor "node-sass" "sass" "sass";
  stylus ← optional_preprocessor "stylus" "stylus" "stylus";
  let preprocessCssRules :=
    filter_Boolean
      [ Some {| pp_name := "postcss"; pp_loader := postcss;
                pp_options :=
                  Some (PostcssOptions (resolvePostcssConfig w options)
                          (filter_Boolean [Some pxToUnits_plugin])) |};
        less; sass; stylus ] in

  rule_set_test "styles" styles_test ;;
  rule_exclude_add "styles"
    (if enabled cssModuleConfig then CondRegExp (regExp cssModuleConfig)
     else CondString "") ;;
  rule_use "styles" "cssExtract" ;;
  use_set_loader "styles" "cssExtract" (MiniCssExtractPlugin_loader w) ;;
  rule_use "styles" "css" ;;
  css ← lift (useLoader "css");
  use_set_loader "styles" "css" css ;;
  use_set_options "styles" "css" (CssOptions (List.length preprocessCssRules) None) ;;
  use_preprocessCssRules "styles" preprocessCssRules ;;

  (* Css Modules *)
  (if enabled cssModuleConfig then
     rule_set_test "cssModulesStyles" (regExp cssModuleConfig) ;;
     rule_include_add "cssModulesStyles" (CondRegExp (regExp cssModuleConfig)) ;;
     rule_use "cssModulesStyles" (MiniCssExtractPlugin_loader w) ;;
     use_set_loader "cssModulesStyles" (MiniCssExtractPlugin_loader w)
       (MiniCssExtractPlugin_loader w) ;;
     rule_use "cssModulesStyles" "css" ;;
     css ← lift (useLoader "css");
     use_set_loader "cssModulesStyles" "css" css ;;
     use_set_options "cssModulesStyles" "css"
       (CssOptions (List.length preprocessCssRules) (Some true)) ;;
     use_preprocessCssRules "cssModulesStyles" preprocessCssRules
   else mret ()) ;;

  rule_set_test "json" json_test ;;
  rule_use "json" "json" ;;
  json ← lift (useLoader "json");
  use_set_loader "json" "json" json ;;

  rule_set_test "remaxDefineVariables" define_test ;;
  rule_use "remaxDefineVariables" "remax-define" ;;
  remaxDefine ← lift (useLoader "remax-define");
  use_set_loader "remaxDefineVariables" "remax-define" remaxDefine ;;

  rule_set_test "images" images_test ;;
  rule_use "images" "file" ;;
  file ← lift (useLoader "file");
  use_set_loader "images" "file" file ;;

  rule_set_test "resolvePlatformFiles" (matcher w) ;;
  rule_use "resolvePlatformFiles" "resolve-platform" ;;
  resolvePlatform ← lift (useLoader "resolve-platform");
  use_set_loader "resolvePlatformFiles" "resolve-platform" resolvePlatform ;;

  plugin "virtualModule" ;;
  identifier "VirtualModulePlugin" ;;
  plugin_use "virtualModule" (Constructor "VirtualModulePlugin")
    [VirtualModuleOptions "src/index.js" greeting_json] ;;

  (if progress options then
     plugin "progress" ;;
     plugin_use "progress" (Instance new_ProgressPlugin) []
   else mret ()) ;;

  plugin "define" ;;
  plugin_use "define" (Instance (new_DefinePlugin (stringified env))) [] ;;
  plugin "cssExtract" ;;
  plugin_use "cssExtract" (Instance (new_MiniCssExtractPlugin "[name]")) [] ;;
  plugin "optimizeEntries" ;;
  identifier "meta" ;;
  plugin_use "optimizeEntries" (Instance new_OptimizeEntries) [] ;;
  plugin "nativeFiles" ;;
  plugin_use "nativeFiles" (Instance (new_NativeFiles options)) [] ;;

  (if bool_decide (NODE_ENV w = Some "production") then
     plugin "clean" ;;
     plugin_use "clean" (Instance new_CleanWebpackPlugin) []
   else mret ()) ;;

  match configWebpack options with
  | cw_function f =>
      call_configWebpack f
  | _ => mret ()
  end ;;

  c ← get_config;
  logged ← lift (toConfig c);
  emit (ConsoleLog logged) ;;

  c ← get_config;
  lift (toConfig c).

End Assembler.

(** ** A sample project

    A concrete world and concrete options, on which the functions
    above can be run. *)

Module Sample.

Definition upper (c : ascii) : ascii :=
  let n := nat_of_ascii c in
  if ((97 <=? n) && (n <=? 122))%nat then ascii_of_nat (n - 32) else c.

(** lodash's [camelCase] on identifiers made of lower-case words
    joined by hyphens. *)
Fixpoint camelCase_kebab (s : string) : string :=
  match s with
  | EmptyString => EmptyString
  | String c rest =>
      if Ascii.eqb c "-" then
        match rest with
        | String d rest' => String (upper d) (camelCase_kebab rest')
        | EmptyString => EmptyString
        end
      else String c (camelCase_kebab rest)
  end.

Definition module_regExp : RegExp := {| re_source := "\.module\.css$"; re_flags := "" |}.

Definition entries_of (options : RemaxOptions) (app : string) (pages : list string)
    : Res Entries :=
  Ok {| entries_app := path.join [cwd options; rootDir options; app];
        entries_pages := (λ page, path.join [cwd options; rootDir options; page]) <$> pages |}.

(** A world in which [getEntries] finds the given app and page files
    under [cwd/rootDir], and the packages [enabled_modules] are
    installed. *)
Definition world_with (app : string) (pages : list string)
    (enabled_modules : list string) : World :=
  {| NODE_ENV := Some "development";
     dirname := "/repo/packages/remax-cli/lib/web";
     fs_existsSync := λ p,
       if bool_decide (p = "/repo/packages/remax-cli/lib/web/webpack/loaders/babel.js")
       then Present else Absent;
     require_resolve := λ request, Ok ("/repo/node_modules/" +:+ request +:+ "/index.js");
     camelCase := camelCase_kebab;
   replace_outside_fragment := λ source _,
     Throw (SyntaxError ("Invalid regular expression: /" +:+ source +:+ "/"));
     MiniCssExtractPlugin_loader := "/repo/node_modules/mini-css-extract-plugin/dist/loader.js";
     getEntries := λ o, entries_of o app pages;
     getEnvironment := λ _ target,
       {| env_raw := [("REMAX_PLATFORM", target)];
          stringified :=
            [("process.env.REMAX_PLATFORM", double_quote +:+ target +:+ double_quote)] |};
     alias := λ o, [("@", path.join [cwd o; rootDir o])];
     extensions := [".js"; ".jsx"; ".ts"; ".tsx"];
     matcher := {| re_source := "\.(jsx?|tsx?)$"; re_flags := "" |};
     getCssModuleConfig := λ policy, policy;
     resolvePostcssConfig := λ o, path.join [cwd o; "postcss.config.js"];
     styleConfig_enabled := λ module, bool_decide (module ∈ enabled_modules);
     call_function := λ _ c, (Ok (), c) |}.

Definition world : World :=
  world_with "app.js" ["pages/index.js"; "pages/about.tsx"] ["less"].

(** Two page files that differ in their extension only. *)
Definition world_colliding : World :=
  world_with "app.js" ["pages/index.js"; "pages/index.tsx"] ["less"].

(** The page list names the app file itself. *)
Definition world_page_app : World := world_with "app.js" ["app.js"] ["less"].

Definition options : RemaxOptions :=
  {| cwd := "/project"; rootDir := "src"; output := "dist";
     cssModules := {| enabled := true; regExp := module_regExp |}; progress := true;
     configWebpack := cw_function 1%nat |}.

Definition options_plain : RemaxOptions :=
  {| cwd := "/project"; rootDir := "src"; output := "dist";
     cssModules := {| enabled := false; regExp := module_regExp |}; progress := false;
     configWebpack := cw_undefined |}.

Definition ends_with (suffix s : string) : bool :=
  let n := (String.length s - String.length suffix)%nat in
  bool_decide (JsString.drop n s = suffix
               ∧ (String.length suffix ≤ String.length s)%nat).

(** A regular-expression engine for the two patterns the sample
    needs (on lower-case resources). *)
Definition regexp_test (re : RegExp) (resource : string) : bool :=
  if bool_decide (re = module_regExp) then ends_with ".module.css" resource
  else if bool_decide (re = styles_test) then
    ends_with ".css" resource || ends_with ".less" resource
    || ends_with ".sass" resource || ends_with ".stylus" resource
  else false.

(** The builder after a first call, with CSS modules enabled. *)
Definition after_first_call : State :=
  (webpackConfig world options "web" module_loaded).2.

End Sample.

(** ** How webpack reads a rule

    The consumer of the configuration is webpack.  Its documentation of
    [Rule.test], [Rule.include], [Rule.exclude] and of a [Condition]:
    a string condition matches the resources that start with it, a
    RegExp condition the resources it tests true on; a rule applies to
    a resource that passes [test], matches one of [include] when there
    is any, and matches none of [exclude].  What a RegExp tests true on
    is left to the engine: [regexp_test]. *)

Section Matching.

Variable regexp_test : RegExp → string → bool.

Definition condition_matches (c : Condition) (resource : string) : bool :=
  match c with
  | CondRegExp r => regexp_test r resource
  | CondString s => bool_decide (is_Some (JsString.strip_prefix s resource))
  end.

Definition rule_claims (r : Rule) (resource : string) : bool :=
  match rule_test r with
  | Some re => regexp_test re resource
  | None => true
  end
  && (bool_decide (rule_include r = [])
      || existsb (λ c, condition_matches c resource) (rule_include r))
  && negb (existsb (λ c, condition_matches c resource) (rule_exclude r)).

End Matching.

Definition get_rule (name : string) (st : State) : option Rule :=
  ChainedMap.get name (module_rules (config st)).

(** ** The logical name the specification describes

    Following the specification's words, to be compared with
    [entry_name]: the entry's path relative to [cwd/rootDir], with its
    file extension stripped. *)

Definition strip_suffix (suffix s : string) : option string :=
  let n := (String.length s - String.length suffix)%nat in
  if bool_decide (JsString.drop n s = suffix ∧ String.length suffix ≤ String.length s)%nat
  then Some (JsString.take n s) else None.

Definition logical_name (options : RemaxOptions) (entry : string) : option string :=
  relative ← JsString.strip_prefix (path.join [cwd options; rootDir options] +:+ "/") entry;
  strip_suffix (path.extname entry) relative.

(** An extension the pattern fragment covers: no syntax character
    besides the dot. *)
Definition plain_extension (entry : string) : Prop :=
  is_Some (JsRegExp.atoms (path.extname entry)).

(** ** The builder states that calls of [webpackConfig] produce

    From the state the module is loaded in, by any number of calls,
    each in any world and with any options; a call that throws leaves
    the state it had reached. *)
Inductive Reachable : State → Prop :=
| Reachable_loaded : Reachable module_loaded
| Reachable_call w options target st :
    Reachable st → Reachable (webpackConfig w options target st).2.

(** ** Judgments on a run

    [relates R m]: every run of [m] takes a state to an [R]-related
    state, whether it returns or throws.  [fails_within P m]: what [m]
    throws, if it throws, satisfies [P].  [throws_within P m]: [m]
    always throws, and what it throws satisfies [P]. *)

Definition relates {A} (R : relation State) (m : M A) : Prop :=
  ∀ st, R st (m st).2.

Definition fails_within {A} (P : Error → Prop) (m : M A) : Prop :=
  ∀ st e, (m st).1 = Throw e → P e.

Definition throws_within {A} (P : Error → Prop) (m : M A) : Prop :=
  ∀ st, ∃ e, (m st).1 = Throw e ∧ P e.

(** The events of a state are those of an earlier one. *)
Definition same_events : relation State := λ st st', events st' = events st.

(** The entry points of a state are those of an earlier one. *)
Definition same_entryPoints : relation State := λ st st',
  entryPoints (config st') = entryPoints (config st).

(** What a rule holds is still there: the rule itself, the members of
    its include and exclude sets, the names of its uses. *)
Definition rule_extends (r r' : Rule) : Prop :=
  rule_include r ⊆ rule_include r' ∧
  rule_exclude r ⊆ rule_exclude r' ∧
  ChainedMap.keys (rule_uses r) ⊆ ChainedMap.keys (rule_uses r').

Definition rules_persist : relation State := λ st st',
  ∀ name r, get_rule name st = Some r →
            ∃ r', get_rule name st' = Some r' ∧ rule_extends r r'.

(** Nothing is excluded from the CSS-module rule. *)
Definition module_rule_excludes_nothing (st : State) : Prop :=
  ∀ r, get_rule "cssModulesStyles" st = Some r → rule_exclude r = [].

Definition keeps (I : State → Prop) : relation State := λ st st', I st → I st'.

(** The loader a use names, and the options it carries. *)
Definition use_sequence (r : Rule) : list (string * option string) :=
  (λ nu, (nu.1, use_loader nu.2)) <$> rule_uses r.

Definition options_of_use (name : string) (r : Rule) : option LoaderOptions :=
  u ← ChainedMap.get name (rule_uses r); use_options u.

Definition loader_of (w : World) (id : string) : option string :=
  match useLoader w id with Ok l => Some l | Throw _ => None end.

(** The names of the candidate preprocessors that are enabled, in
    candidate order ([styleConfig.enabled('node-sass')] enables the
    preprocessor named [sass]). *)
Definition enabled_preprocessors (w : World) : list string :=
  ("postcss" ::
   (if styleConfig_enabled w "less" then ["less"] else []) ++
   (if styleConfig_enabled w "node-sass" then ["sass"] else []) ++
   (if styleConfig_enabled w "stylus" then ["stylus"] else []))%list.

(** ** Further observations on a run

    What the further properties are stated with. *)

(** [pattern] occurs somewhere in [s]. *)
Fixpoint occurs (pattern s : string) : bool :=
  match JsString.strip_prefix pattern s with
  | Some _ => true
  | None =>
      match s with
      | EmptyString => false
      | String _ s' => occurs pattern s'
      end
  end.

(** The names of the rules of the builder, in declaration order. *)
Definition rule_names (st : State) : list string :=
  ChainedMap.keys (module_rules (config st)).

Definition rule_order_grows : relation State := λ st st',
  rule_names st `prefix_of` rule_names st'.

Definition rule_names_unique (st : State) : Prop := NoDup (rule_names st).

Definition same_rule (name : string) : relation State := λ st st',
  get_rule name st' = get_rule name st.

(** The builder has no entry, or the one entry [index]. *)
Definition entry_unset_or_fixed (st : State) : Prop :=
  entryPoints (config st) = [] ∨
  entryPoints (config st) = [("index", ["src/index.js"])].

(** The builder has no plugin, or the one slot [virtualModule], which
    holds no plugin. *)
Definition no_plugin_registered (st : State) : Prop :=
  plugins (config st) = [] ∨
  plugins (config st) = [("virtualModule", new_Plugin)].

(** The top-level settings of lines 60-66, as a state holds them. *)
Record Settings := {
  s_devtool : option Devtool;
  s_mode : option string;
  s_context : option string;
  s_output_path : option string;
  s_output_filename : option string;
}.

Definition settings_of (st : State) : Settings :=
  {| s_devtool := cfg_devtool (config st); s_mode := cfg_mode (config st);
     s_context := cfg_context (config st); s_output_path := output_path (config st);
     s_output_filename := output_filename (config st) |}.

(** The loaders a run resolves on its way to plugin registration, in
    the order of their first resolution. *)
Definition required_loaders (w : World) : list string :=
  (["babel"; "postcss"] ++
   (if styleConfig_enabled w "less" then ["less"] else []) ++
   (if styleConfig_enabled w "node-sass" then ["sass"] else []) ++
   (if styleConfig_enabled w "stylus" then ["stylus"] else []) ++
   ["css"; "json"; "remax-define"; "file"; "resolve-platform"])%list.

(** The rule names a run declares, in order. *)
Definition declared_rules (w : World) (options : RemaxOptions) : list string :=
  (["createAppOrPageConfig"; "compilation"; "styles"] ++
   (if enabled (getCssModuleConfig w (cssModules options))
    then ["cssModulesStyles"] else []) ++
   ["json"; "remaxDefineVariables"; "images"; "resolvePlatformFiles"])%list.

(** A resource lies at or under one of the entry paths. *)
Definition under_an_entry (es : Entries) (resource : string) : bool :=
  existsb (λ e, bool_decide (is_Some (JsString.strip_prefix e resource)))
    (entries_app es :: entries_pages es).

(** What a call throws: the error of [prepare]; otherwise that of the
    first loader, in the order of the body, that does not resolve;
    otherwise the one for the identifier nothing binds. *)
Definition first_failure (w : World) : option Error :=
  foldr (λ id later,
           match useLoader w id with
           | Throw e => Some e
           | Ok _ => later
           end) None (required_loaders w).

Definition thrown_by (w : World) (options : RemaxOptions) (target : Platform) : Error :=
  match prepare w options target with
  | Throw e => e
  | Ok _ => default (ReferenceError "VirtualModulePlugin") (first_failure w)
  end.

(** What a run that stops before plugin registration has thrown: the
    error of [prepare], or that of a loader of the body that does not
    resolve. *)
Definition stopped_by (w : World) (options : RemaxOptions) (target : Platform)
    (e : Error) : Prop :=
  prepare w options target = Throw e ∨
  ∃ id, id ∈ required_loaders w ∧ useLoader w id = Throw e.

(** [m] returns, from every state. *)
Definition returns {A} (m : M A) : Prop := ∀ st, is_Ok (m st).1.

(** The builder holds a rule [name], and [P] holds of it. *)
Definition rule_has (name : string) (P : Rule → Prop) (st : State) : Prop :=
  ∃ r, get_rule name st = Some r ∧ P r.

(** Only the rule [styles] has exclude conditions, only the rules
    [createAppOrPageConfig] and [cssModulesStyles] have include
    conditions. *)
Definition conditions_where_declared (st : State) : Prop :=
  ∀ name r, get_rule name st = Some r →
    (name ≠ "styles" → rule_exclude r = []) ∧
    (name ≠ "createAppOrPageConfig" → name ≠ "cssModulesStyles" → rule_include r = []).

Definition unrestricted_rules : list string :=
  ["compilation"; "json"; "remaxDefineVariables"; "images"; "resolvePlatformFiles"].

(** The rules of lines 162-184: name, test, and the id given to
    [useLoader], which is also the name of the use. *)
Definition asset_rules (w : World) : list (string * RegExp * string) :=
  [ ("json", json_test, "json");
    ("remaxDefineVariables", define_test, "remax-define");
    ("images", images_test, "file");
    ("resolvePlatformFiles", matcher w, "resolve-platform") ].

(** Worlds in which a collaborator fails. *)
Module Scenario.

Definition with_collaborators (w : World) (entries : RemaxOptions → Res Entries)
    (resolve : string → Res string) : World :=
  {| NODE_ENV := NODE_ENV w; dirname := dirname w; fs_existsSync := λ _, Absent;
     require_resolve := resolve; camelCase := camelCase w;
     replace_outside_fragment := replace_outside_fragment w;
     MiniCssExtractPlugin_loader := MiniCssExtractPlugin_loader w;
     getEntries := entries; getEnvironment := getEnvironment w; alias := alias w;
     extensions := extensions w; matcher := matcher w;
     getCssModuleConfig := getCssModuleConfig w;
     resolvePostcssConfig := resolvePostcssConfig w;
     styleConfig_enabled := styleConfig_enabled w;
     call_function := call_function w |}.

(** [getEntries] finds no app file. *)
Definition world_without_app : World :=
  with_collaborators Sample.world (λ _, Throw (Thrown "app entry not found"))
    (require_resolve Sample.world).

(** [babel-loader] is not installed and has no local override. *)
Definition world_without_babel : World :=
  with_collaborators Sample.world (getEntries Sample.world)
    (λ request,
       if bool_decide (request = "babel-loader") then Throw (ModuleNotFound request)
       else require_resolve Sample.world request).

(** [NODE_ENV] is not set. *)
Definition world_without_NODE_ENV : World :=
  {| NODE_ENV := None; dirname := dirname Sample.world;
     fs_existsSync := fs_existsSync Sample.world;
     require_resolve := require_resolve Sample.world;
     camelCase := camelCase Sample.world;
     replace_outside_fragment := replace_outside_fragment Sample.world;
     MiniCssExtractPlugin_loader := MiniCssExtractPlugin_loader Sample.world;
     getEntries := getEntries Sample.world;
     getEnvironment := getEnvironment Sample.world; alias := alias Sample.world;
     extensions := extensions Sample.world; matcher := matcher Sample.world;
     getCssModuleConfig := getCssModuleConfig Sample.world;
     resolvePostcssConfig := resolvePostcssConfig Sample.world;
     styleConfig_enabled := styleConfig_enabled Sample.world;
     call_function := call_function Sample.world |}.

(** A regular-expression engine that reads [matcher] as: the resource
    ends in [.js]. *)
Definition regexp_test (re : RegExp) (resource : string) : bool :=
  bool_decide (re = matcher Sample.world) && Sample.ends_with ".js" resource.



(** What [prepare] returns on the sample project. *)
Definition prepared : Prepared :=
  {| p_entries := {| entries_app := "/project/src/app.js";
                     entries_pages := ["/project/src/pages/index.js";
                                       "/project/src/pages/about.tsx"] |};
     p_entryMap := {[ "app" := "/project/src/app.js";
                      "pages/index" := "/project/src/pages/index.js";
                      "pages/about" := "/project/src/pages/about.tsx" ]};
     p_env := getEnvironment Sample.world Sample.options "web" |}.

End Scenario.

(** * Properties *)

(** ** Strings and patterns *)

Lemma append_String c (a b : string) : String c a +:+ b = String c (a +:+ b).
Proof. reflexivity. Qed.

Lemma append_empty (b : string) : EmptyString +:+ b = b.
Proof. reflexivity. Qed.

Lemma strip_prefix_app p r : JsString.strip_prefix p (p +:+ r) = Some r.
Proof.
  induction p as [|a p IH]; [done|].
  rewrite append_String. simpl. by rewrite Ascii.eqb_refl.
Qed.

Lemma strip_prefix_Some p s r : JsString.strip_prefix p s = Some r → s = p +:+ r.
Proof.
  revert s; induction p as [|a p IH]; intros s; simpl.
  - by intros [= ->].
  - destruct s as [|b s]; [done|].
    destruct (Ascii.eqb a b) eqn:Hab; [|done].
    apply Ascii.eqb_eq in Hab as ->. intros H. by rewrite (IH _ H).
Qed.

Lemma replace_at_start p rep r : JsString.replace p rep (p +:+ r) = rep +:+ r.
Proof.
  assert (Hunfold : ∀ s, JsString.replace p rep s =
            match JsString.strip_prefix p s with
            | Some rest => rep +:+ rest
            | None => match s with
                      | EmptyString => EmptyString
                      | String c s' => String c (JsString.replace p rep s')
                      end
            end) by (by intros []).
  by rewrite Hunfold, strip_prefix_app.
Qed.

Lemma take_drop_string n s : JsString.take n s +:+ JsString.drop n s = s.
Proof.
  revert s; induction n as [|n IH]; intros [|c s]; simpl; try done.
  rewrite append_String. f_equal. apply IH.
Qed.

Lemma strip_suffix_Some suffix s r : strip_suffix suffix s = Some r → s = r +:+ suffix.
Proof.
  unfold strip_suffix.
  set (n := (String.length s - String.length suffix)%nat).
  case_bool_decide as H; [|done].
  intros [= <-]. destruct H as [H _].
  rewrite <- H. by rewrite take_drop_string.
Qed.

Lemma atoms_length source p :
  JsRegExp.atoms source = Some p → List.length p = String.length source.
Proof.
  revert p; induction source as [|c s IH]; intros p; simpl.
  - by intros [= <-].
  - destruct (JsRegExp.syntax_character c); [done|].
    destruct (JsRegExp.atoms s) as [tl|]; [|done].
    simpl. intros [= <-]. simpl. by rewrite (IH tl).
Qed.

Lemma matches_to_end_length p s :
  JsRegExp.matches_to_end p s = true → List.length p = String.length s.
Proof.
  revert s; induction p as [|a p IH]; intros [|c s]; simpl; try done.
  intros [_ H]%andb_prop. by rewrite (IH s).
Qed.

(** A pattern of the fragment matches the source it was built from. *)
Lemma atoms_match_source source p :
  JsRegExp.atoms source = Some p → JsRegExp.matches_to_end p source = true.
Proof.
  revert p; induction source as [|c s IH]; intros p; simpl.
  - by intros [= <-].
  - destruct (JsRegExp.syntax_character c); [done|].
    destruct (JsRegExp.atoms s) as [tl|]; [|done].
    simpl. intros [= <-]. simpl. rewrite (IH tl) by done.
    destruct (Ascii.eqb c ".") eqn:Hc; simpl.
    + apply Ascii.eqb_eq in Hc as ->. done.
    + by rewrite Ascii.eqb_refl.
Qed.

Lemma string_length_app (a b : string) :
  String.length (a +:+ b) = (String.length a + String.length b)%nat.
Proof.
  induction a as [|c a IH]; [done|].
  rewrite append_String. simpl. by rewrite IH.
Qed.

(** Replacing [ext$] by the empty string removes the extension. *)
Lemma replace_extension ext p stem :
  JsRegExp.atoms ext = Some p → JsRegExp.replace p "" (stem +:+ ext) = stem.
Proof.
  intros Hp. induction stem as [|c stem IH].
  - rewrite append_empty. destruct ext; simpl.
    + by rewrite (atoms_match_source _ _ Hp).
    + by rewrite (atoms_match_source _ _ Hp).
  - rewrite append_String. cbn [JsRegExp.replace].
    destruct (JsRegExp.matches_to_end p (String c (stem +:+ ext))) eqn:Hm.
    + apply matches_to_end_length in Hm. apply atoms_length in Hp.
      simpl in Hm. rewrite string_length_app in Hm. lia.
    + by rewrite IH.
Qed.

(** [entry_name] computes the logical name of the specification for an
    entry under [cwd/rootDir] whose extension the fragment covers. *)
Lemma entry_name_logical w options entry name :
  logical_name options entry = Some name →
  plain_extension entry →
  entry_name w options entry = Ok name.
Proof.
  unfold logical_name, plain_extension, entry_name. intros Hname [p Hp].
  destruct (JsString.strip_prefix _ entry) as [relative|] eqn:Hrel; [|done].
  simpl in Hname. apply strip_prefix_Some in Hrel. apply strip_suffix_Some in Hname.
  rewrite Hp.
  rewrite Hrel at 1. rewrite replace_at_start, append_empty.
  rewrite Hname at 1. by rewrite (replace_extension _ _ _ Hp).
Qed.

(** ** [prepare]: the entry map *)

Lemma reduce_app {A B} (f : B → A → Res B) l1 l2 acc :
  reduce f (l1 ++ l2)%list acc = (acc' ← reduce f l1 acc; reduce f l2 acc').
Proof.
  revert acc; induction l1 as [|x l1 IH]; intros acc; simpl; [done|].
  destruct (f acc x); simpl; [apply IH|done].
Qed.

Lemma reduce_cons {A B} (f : B → A → Res B) x rest acc :
  reduce f (x :: rest) acc = (acc' ← f acc x; reduce f rest acc').
Proof. reflexivity. Qed.

Lemma Res_bind_Ok {A B} (a : A) (f : A → Res B) : (Ok a ≫= f) = f a.
Proof. reflexivity. Qed.

Lemma entry_step_Ok w options m entry name :
  entry_name w options entry = Ok name →
  entry_step w options m entry = Ok (object_set m name entry).
Proof. unfold entry_step. by intros ->. Qed.

Lemma entry_step_Throw w options m entry err :
  entry_name w options entry = Throw err →
  entry_step w options m entry = Throw err.
Proof. unfold entry_step. by intros ->. Qed.

Lemma reduce_entries_total w options l acc :
  Forall (λ e, is_Ok (entry_name w options e)) l →
  ∃ m, reduce (entry_step w options) l acc = Ok m.
Proof.
  intros Hl; revert acc; induction Hl as [|e l He _ IH]; intros acc; [by eexists|].
  destruct (entry_name w options e) as [n|] eqn:Hn; [|done].
  rewrite reduce_cons, (entry_step_Ok _ _ _ _ _ Hn), Res_bind_Ok. apply IH.
Qed.

(** Entries of other names leave a name's slot as it is. *)
Lemma reduce_entries_other w options l acc m name :
  Forall (λ e, entry_name w options e ≠ Ok name) l →
  reduce (entry_step w options) l acc = Ok m →
  m !! name = acc !! name.
Proof.
  intros Hl; revert acc; induction Hl as [|e l He _ IH]; intros acc.
  - by intros [= <-].
  - rewrite reduce_cons.
    destruct (entry_name w options e) as [n|err] eqn:Hn;
      [|by rewrite (entry_step_Throw _ _ _ _ _ Hn)].
    rewrite (entry_step_Ok _ _ _ _ _ Hn), Res_bind_Ok. intros Hm. rewrite (IH _ Hm). unfold object_set.
    case_bool_decide; [done|]. apply lookup_insert_ne. congruence.
Qed.

Lemma zip_names_fresh (names entries : list string) name :
  name ∉ names → (list_to_map (zip names entries) : gmap string string) !! name = None.
Proof.
  intros Hn. apply not_elem_of_list_to_map_1. intros Hin. apply Hn.
  clear Hn. revert entries Hin.
  induction names as [|n names IH]; intros [|e entries]; simpl; try by inversion 1.
  rewrite !elem_of_cons. intros [->|H]; [by left|right; eauto].
Qed.

(** With pairwise distinct names, the fold builds the map from names
    to entries. *)
Lemma reduce_entries_distinct w options l names acc :
  Forall2 (λ e n, entry_name w options e = Ok n) l names →
  NoDup names → "__proto__" ∉ names →
  (∀ n, n ∈ names → acc !! n = None) →
  reduce (entry_step w options) l acc = Ok (list_to_map (zip names l) ∪ acc).
Proof.
  intros Hl; revert acc.
  induction Hl as [|e n l names Hn _ IH]; intros acc Hdup Hproto Hacc.
  - simpl. by rewrite (left_id_L ∅ (∪)).
  - apply NoDup_cons in Hdup as [Hfresh Hdup].
    apply not_elem_of_cons in Hproto as [Hne Hproto].
    rewrite reduce_cons, (entry_step_Ok _ _ _ _ _ Hn), Res_bind_Ok.
    unfold object_set. rewrite bool_decide_eq_false_2 by done.
    rewrite IH; [|done|done|].
    + f_equal. simpl. rewrite <- insert_union_l.
      symmetry. apply insert_union_r, zip_names_fresh, Hfresh.
    + intros n' Hn'. rewrite lookup_insert_ne; [|set_solver].
      apply Hacc. by right.
Qed.

(** C3, as stated, fails: two page files whose names collide make
    [prepare] return normally, with the later file in the slot of the
    shared name. *)
Lemma prepare_collision_overwrites :
  entry_name Sample.world_colliding Sample.options "/project/src/pages/index.js" = Ok "pages/index" ∧
  entry_name Sample.world_colliding Sample.options "/project/src/pages/index.tsx" = Ok "pages/index" ∧
  ∃ p, prepare Sample.world_colliding Sample.options "web" = Ok p ∧
       p_entries p =
         {| entries_app := "/project/src/app.js";
            entries_pages := ["/project/src/pages/index.js";
                              "/project/src/pages/index.tsx"] |} ∧
       p_entryMap p =
         {[ "app" := "/project/src/app.js";
            "pages/index" := "/project/src/pages/index.tsx" ]}.
Proof.
  split; [vm_compute; reflexivity|]. split; [vm_compute; reflexivity|].
  eexists. split; [vm_compute; reflexivity|]. split; vm_compute; reflexivity.
Qed.

(** C3 (amended): when two entry files of [app, ...pages] have the
    same name, [prepare] raises no error on their account: it returns,
    and the entry map holds under that name the file that comes last
    in the list. *)
Theorem prepare_last_write_wins w options target es l1 e1 l2 e2 l3 name :
  getEntries w options = Ok es →
  entries_app es :: entries_pages es = (l1 ++ e1 :: l2 ++ e2 :: l3)%list →
  Forall (λ e, is_Ok (entry_name w options e)) (entries_app es :: entries_pages es) →
  entry_name w options e1 = Ok name →
  entry_name w options e2 = Ok name →
  name ≠ "__proto__" →
  Forall (λ e, entry_name w options e ≠ Ok name) l3 →
  ∃ p, prepare w options target = Ok p ∧ p_entryMap p !! name = Some e2.
Proof.
  intros Hes Hl Hall _ He2 Hproto Hl3. unfold prepare. rewrite Hes, Res_bind_Ok.
  destruct (reduce_entries_total w options _ ∅ Hall) as [m Hm]. rewrite Hm, Res_bind_Ok.
  eexists; split; [done|]. simpl.
  rewrite Hl in Hm.
  replace (l1 ++ e1 :: l2 ++ e2 :: l3)%list
    with ((l1 ++ e1 :: l2) ++ [e2] ++ l3)%list in Hm by by rewrite <- app_assoc.
  rewrite reduce_app in Hm.
  destruct (reduce (entry_step w options) (l1 ++ e1 :: l2)%list ∅) as [m1|]; [|done].
  rewrite Res_bind_Ok in Hm. change ([e2] ++ l3)%list with (e2 :: l3) in Hm.
  rewrite reduce_cons, (entry_step_Ok _ _ _ _ _ He2), !Res_bind_Ok in Hm.
  rewrite (reduce_entries_other _ _ _ _ _ _ Hl3 Hm). unfold object_set.
  rewrite bool_decide_eq_false_2 by done. apply lookup_insert_eq.
Qed.

Lemma prepare_last_write_wins_witness :
  ∃ p, prepare Sample.world_colliding Sample.options "web" = Ok p ∧
       p_entryMap p !! "pages/index" = Some "/project/src/pages/index.tsx".
Proof.
  apply (prepare_last_write_wins Sample.world_colliding Sample.options "web"
           {| entries_app := "/project/src/app.js";
              entries_pages := ["/project/src/pages/index.js";
                                "/project/src/pages/index.tsx"] |}
           ["/project/src/app.js"] "/project/src/pages/index.js" []
           "/project/src/pages/index.tsx" []).
  - vm_compute; reflexivity.
  - vm_compute; reflexivity.
  - repeat (apply Forall_cons_2; [vm_compute; exact I|]). apply Forall_nil_2.
  - vm_compute; reflexivity.
  - vm_compute; reflexivity.
  - discriminate.
  - apply Forall_nil_2.
Defined.

(** C5, as stated, fails: one page, so pairwise distinct page names,
    but the page has the name of the app; the map has one entry, not
    two. *)
Lemma prepare_page_named_as_app :
  ∃ p, prepare Sample.world_page_app Sample.options "web" = Ok p ∧
       entries_pages (p_entries p) = ["/project/src/app.js"] ∧
       logical_name Sample.options "/project/src/app.js" = Some "app" ∧
       size (p_entryMap p) = 1%nat ∧
       size (p_entryMap p) ≠ S (List.length (entries_pages (p_entries p))).
Proof.
  eexists. split; [vm_compute; reflexivity|].
  split; [vm_compute; reflexivity|]. split; [vm_compute; reflexivity|].
  split; [vm_compute; reflexivity|]. vm_compute. discriminate.
Qed.

(** C5 (amended): when the entries (the app and the N pages) lie under
    [cwd/rootDir], have extensions without pattern syntax characters,
    and have logical names that are pairwise distinct, the app's
    included, and differ from [__proto__], the entry map of [prepare]
    has exactly N+1 entries: it maps each entry's logical name (path
    relative to [cwd/rootDir], extension stripped) to the entry's
    path. *)
Theorem prepare_entryMap w options target es names :
  getEntries w options = Ok es →
  Forall2 (λ e n, logical_name options e = Some n ∧ plain_extension e)
    (entries_app es :: entries_pages es) names →
  NoDup names →
  "__proto__" ∉ names →
  ∃ p, prepare w options target = Ok p ∧
       p_entries p = es ∧
       p_entryMap p = list_to_map (zip names (entries_app es :: entries_pages es)) ∧
       size (p_entryMap p) = S (List.length (entries_pages es)).
Proof.
  intros Hes Hnames Hdup Hproto. unfold prepare. rewrite Hes, Res_bind_Ok.
  assert (Hcode : Forall2 (λ e n, entry_name w options e = Ok n)
                    (entries_app es :: entries_pages es) names).
  { eapply Forall2_impl; [done|]. intros e n [??]. by apply entry_name_logical. }
  rewrite (reduce_entries_distinct _ _ _ _ ∅ Hcode Hdup Hproto) by done.
  rewrite Res_bind_Ok, (right_id_L ∅ (∪)).
  eexists; split; [done|]. simpl. split; [done|]. split; [done|].
  rewrite map_size_list_to_map.
  - rewrite length_zip. apply Forall2_length in Hnames. simpl in *. lia.
  - rewrite fst_zip; [done|]. apply Forall2_length in Hnames. lia.
Qed.

Lemma prepare_entryMap_witness :
  ∃ p, prepare Sample.world Sample.options "web" = Ok p ∧
       p_entries p =
         {| entries_app := "/project/src/app.js";
            entries_pages := ["/project/src/pages/index.js";
                              "/project/src/pages/about.tsx"] |} ∧
       p_entryMap p =
         list_to_map (zip ["app"; "pages/index"; "pages/about"]
                          ["/project/src/app.js"; "/project/src/pages/index.js";
                           "/project/src/pages/about.tsx"]) ∧
       size (p_entryMap p) = 3%nat.
Proof.
  apply (prepare_entryMap Sample.world Sample.options "web"
           {| entries_app := "/project/src/app.js";
              entries_pages := ["/project/src/pages/index.js";
                                "/project/src/pages/about.tsx"] |}
           ["app"; "pages/index"; "pages/about"]).
  - vm_compute; reflexivity.
  - cbn [entries_app entries_pages].
    repeat (constructor;
              [split; [vm_compute; reflexivity|vm_compute; eexists; reflexivity]|]).
    constructor.
  - apply (bool_decide_unpack _). vm_compute; exact I.
  - apply (bool_decide_unpack _). vm_compute; exact I.
Defined.

(** ** [useLoader] *)

(** C6: for every id, [useLoader] returns the path of the local
    override [<__dirname>/webpack/loaders/<camelCase(id)>.js] when that
    file exists; otherwise, and also when probing the file system
    fails, it returns what the resolver binds to [<id>-loader]. *)
Theorem useLoader_precedence w id :
  override_path w id
    = path.join [dirname w; "./webpack/loaders"; camelCase w id +:+ ".js"] ∧
  useLoader w id =
    match fs_existsSync w (override_path w id) with
    | Present => Ok (override_path w id)
    | Absent | ProbeFails _ => require_resolve w (id +:+ "-loader")
    end.
Proof.
  split; [done|]. unfold useLoader.
  by destruct (fs_existsSync w (override_path w id)).
Qed.

(** ** Runs of the module's functions *)

Lemma M_bind_unfold {A B} (m : M A) (f : A → M B) st :
  (m ≫= f) st =
    match m st with
    | (Ok a, st') => f a st'
    | (Throw e, st') => (Throw e, st')
    end.
Proof. reflexivity. Qed.

Section Judgments.

Context (R : relation State) `{!PreOrder R}.

Lemma relates_ret {A} (a : A) : relates R (mret a : M A).
Proof. intros st. reflexivity. Qed.

Lemma relates_lift {A} (r : Res A) : relates R (lift r).
Proof. intros st. reflexivity. Qed.

Lemma relates_identifier x : relates R (identifier x).
Proof. intros st. unfold identifier. case_bool_decide; reflexivity. Qed.

Lemma relates_get_config : relates R get_config.
Proof. intros st. reflexivity. Qed.

Lemma relates_bind {A B} (m : M A) (f : A → M B) :
  relates R m → (∀ a, relates R (f a)) → relates R (m ≫= f).
Proof.
  intros Hm Hf st. rewrite M_bind_unfold. specialize (Hm st).
  destruct (m st) as [[a|e] st']; simpl in *; [|done].
  etrans; [done|]. apply Hf.
Qed.

(** What follows a computation that always throws does not run. *)
Lemma relates_bind_throw {A B} P (m : M A) (f : A → M B) :
  relates R m → throws_within P m → relates R (m ≫= f).
Proof.
  intros Hm Ht st. rewrite M_bind_unfold. specialize (Hm st).
  destruct (Ht st) as (e & He & _).
  destruct (m st) as [[a|e'] st']; simpl in *; done.
Qed.

Lemma relates_forEach {A} (l : list A) (f : A → M ()) :
  (∀ x, relates R (f x)) → relates R (forEach l f).
Proof.
  intros Hf. induction l as [|x l IH]; simpl.
  - apply relates_ret.
  - apply relates_bind; [apply Hf|]. intros _. apply IH.
Qed.

End Judgments.

Section Failures.

Context (P : Error → Prop).

Lemma fails_within_modify f : fails_within P (modify f).
Proof. by intros st e. Qed.

Lemma fails_within_ret {A} (a : A) : fails_within P (mret a : M A).
Proof. by intros st e. Qed.

Lemma fails_within_lift {A} (r : Res A) :
  (∀ e, r = Throw e → P e) → fails_within P (lift r).
Proof. intros H st e. simpl. apply H. Qed.

Lemma fails_within_bind {A B} (m : M A) (f : A → M B) :
  fails_within P m → (∀ a, fails_within P (f a)) → fails_within P (m ≫= f).
Proof.
  intros Hm Hf st e. rewrite M_bind_unfold. specialize (Hm st).
  destruct (m st) as [[a|e'] st']; simpl in *.
  - apply Hf.
  - intros [= ->]. by apply Hm.
Qed.

Lemma fails_within_forEach {A} (l : list A) (f : A → M ()) :
  (∀ x, fails_within P (f x)) → fails_within P (forEach l f).
Proof.
  intros Hf. induction l as [|x l IH]; simpl.
  - apply fails_within_ret.
  - apply fails_within_bind; [apply Hf|]. intros _. apply IH.
Qed.

Lemma throws_within_bind_l {A B} (m : M A) (f : A → M B) :
  throws_within P m → throws_within P (m ≫= f).
Proof.
  intros Hm st. rewrite M_bind_unfold. destruct (Hm st) as (e & He & HP).
  destruct (m st) as [[a|e'] st']; simplify_eq/=. eauto.
Qed.

Lemma throws_within_bind_r {A B} (m : M A) (f : A → M B) :
  fails_within P m → (∀ a, throws_within P (f a)) → throws_within P (m ≫= f).
Proof.
  intros Hm Hf st. rewrite M_bind_unfold. specialize (Hm st).
  destruct (m st) as [[a|e'] st']; simpl in *.
  - apply Hf.
  - exists e'. split; [done|]. by apply Hm.
Qed.

End Failures.

(** Neither the module nor Node binds [VirtualModulePlugin]:
    evaluating the identifier throws, whatever the state. *)
Lemma VirtualModulePlugin_unbound P :
  P (ReferenceError "VirtualModulePlugin") →
  throws_within P (identifier "VirtualModulePlugin").
Proof. intros HP st. exists (ReferenceError "VirtualModulePlugin"). by split. Qed.

(** The chain methods, unfolded to the change they make. *)
Ltac unfold_chain :=
  unfold entry_add, set_devtool, set_mode, set_context, set_output_path,
    set_output_filename, resolve_extensions_merge, resolve_alias_merge,
    rule_set_test, rule_include_add, rule_include_merge, rule_exclude_add,
    rule_use, use_set_loader, use_set_options, plugin, plugin_use,
    use_preprocessCssRules, optional_preprocessor.

(** Walks the body of [webpackConfig] up to the identifier that is not
    bound; [leaf] proves the judgment for a change of the builder. *)
Ltac walk_relates leaf :=
  repeat first
    [ progress cbv beta zeta
    | lazymatch goal with
      | |- relates _ (identifier "VirtualModulePlugin" ≫= _) =>
          apply (relates_bind_throw _ (λ _, True));
          [apply relates_identifier; tc_solve
          |by apply VirtualModulePlugin_unbound]
      | |- relates _ (_ ≫= _) => apply relates_bind; [tc_solve| |intros ?]
      | |- relates _ (forEach _ _) => apply relates_forEach; [tc_solve|intros ?]
      | |- relates _ (lift _) => apply relates_lift; tc_solve
      | |- relates _ (mret _) => apply relates_ret; tc_solve
      | |- relates _ (modify _) => leaf
      | |- relates _ (if ?b then _ else _) => destruct b
      end
    | progress unfold_chain ].

Ltac walk_throws :=
  repeat first
    [ progress cbv beta zeta
    | lazymatch goal with
      | |- throws_within _ (identifier "VirtualModulePlugin" ≫= _) =>
          apply throws_within_bind_l, VirtualModulePlugin_unbound; by left
      | |- throws_within _ (_ ≫= _) => apply throws_within_bind_r; [|intros ?]
      | |- fails_within _ (_ ≫= _) => apply fails_within_bind; [|intros ?]
      | |- fails_within _ (forEach _ _) => apply fails_within_forEach; intros ?
      | |- fails_within _ (lift (prepare _ _ _)) =>
          apply fails_within_lift; intros ? ?; right; left; done
      | |- fails_within _ (lift (useLoader _ _)) =>
          apply fails_within_lift; intros ? ?; right; right; eauto
      | |- fails_within _ (mret _) => apply fails_within_ret
      | |- fails_within _ (modify _) => apply fails_within_modify
      | |- fails_within _ (if ?b then _ else _) => destruct b
      end
    | progress unfold_chain ].

#[local] Instance same_events_preorder : PreOrder same_events.
Proof. split; [by intros ?|]. intros a b c Hab Hbc. unfold same_events in *. congruence. Qed.

(** ** What no call reaches *)

(** C10 (what the code does): no call of [webpackConfig] invokes
    [options.configWebpack], callable or not, and none reaches
    [console.log]: a run adds no event. *)
Theorem webpackConfig_never_invokes_hook w options target st :
  events (webpackConfig w options target st).2 = events st.
Proof.
  revert st. change (relates same_events (webpackConfig w options target)).
  unfold webpackConfig. walk_relates ltac:(by intros ?).
Qed.

(** ** The builder's maps and sets *)

Lemma ChainedMap_get_set {V} (k k' : string) (v : V) m :
  ChainedMap.get k (ChainedMap.set k' v m) =
    if String.eqb k' k then Some v else ChainedMap.get k m.
Proof.
  induction m as [|[k0 v0] m IH]; simpl; [done|].
  destruct (String.eqb k0 k') eqn:E0; simpl.
  - apply String.eqb_eq in E0 as ->. by destruct (String.eqb k' k).
  - rewrite IH. destruct (String.eqb k0 k) eqn:E1; [|done].
    apply String.eqb_eq in E1 as ->. by rewrite String.eqb_sym, E0.
Qed.

Lemma ChainedMap_get_update_eq {V} (k : string) (fresh : V) f m :
  ChainedMap.get k (ChainedMap.update k fresh f m)
    = Some (f (default fresh (ChainedMap.get k m))).
Proof. unfold ChainedMap.update. by rewrite ChainedMap_get_set, String.eqb_refl. Qed.

Lemma ChainedMap_get_update_ne {V} (k k' : string) (fresh : V) f m :
  k' ≠ k →
  ChainedMap.get k (ChainedMap.update k' fresh f m) = ChainedMap.get k m.
Proof.
  intros Hne. unfold ChainedMap.update. rewrite ChainedMap_get_set.
  destruct (String.eqb k' k) eqn:E; [|done]. by apply String.eqb_eq in E.
Qed.

Lemma ChainedMap_keys_set {V} (k : string) (v : V) m :
  ChainedMap.keys m ⊆ ChainedMap.keys (ChainedMap.set k v m).
Proof.
  unfold ChainedMap.keys. induction m as [|[k0 v0] m IH]; simpl.
  - apply list_subseteq_nil.
  - destruct (String.eqb k0 k); simpl; [done|].
    intros x [->|Hx]%elem_of_cons; [by left|right; by apply IH].
Qed.

Lemma ChainedSet_add_subseteq {A} `{EqDecision A} (x : A) s : s ⊆ ChainedSet.add x s.
Proof. unfold ChainedSet.add. case_bool_decide; set_solver. Qed.

Lemma ChainedSet_add_elem {A} `{EqDecision A} (x : A) s : x ∈ ChainedSet.add x s.
Proof. unfold ChainedSet.add. case_bool_decide; set_solver. Qed.

Lemma ChainedSet_merge_subseteq {A} `{EqDecision A} (arr s : list A) :
  s ⊆ ChainedSet.merge arr s.
Proof.
  unfold ChainedSet.merge. revert s. induction arr as [|x arr IH]; intros s; simpl; [done|].
  etrans; [apply (ChainedSet_add_subseteq x)|apply IH].
Qed.

(** ** What a call leaves in the shared builder *)

#[local] Instance rule_extends_preorder : PreOrder rule_extends.
Proof.
  split.
  - by intros r.
  - intros a b c (?&?&?) (?&?&?). repeat split; by etrans.
Qed.

#[local] Instance rules_persist_preorder : PreOrder rules_persist.
Proof.
  split.
  - intros st name r Hr. by exists r.
  - intros a b c Hab Hbc name r Hr.
    destruct (Hab name r Hr) as (r1 & Hr1 & ?).
    destruct (Hbc name r1 Hr1) as (r2 & Hr2 & ?).
    exists r2. split; [done|]. by etrans.
Qed.

Lemma rules_persist_update_rule name f :
  (∀ r, rule_extends r (f r)) →
  relates rules_persist (modify (update_rule name f)).
Proof.
  intros Hf st n r Hr. unfold get_rule in *. simpl.
  destruct (decide (name = n)) as [->|Hne].
  - rewrite ChainedMap_get_update_eq, Hr. simpl. eauto.
  - rewrite ChainedMap_get_update_ne by done. by exists r.
Qed.

Lemma rules_persist_other f :
  (∀ c, module_rules (f c) = module_rules c) →
  relates rules_persist (modify f).
Proof. intros Hf st n r Hr. unfold get_rule in *. simpl. rewrite Hf. by exists r. Qed.

Lemma update_use_extends name f r : rule_extends r (update_use name f r).
Proof. repeat split; simpl; try done. apply ChainedMap_keys_set. Qed.

Ltac rules_persist_leaf :=
  first
    [ apply rules_persist_update_rule; intros ?;
      first [ apply update_use_extends
            | repeat split; simpl;
              auto using ChainedSet_add_subseteq, ChainedSet_merge_subseteq ]
    | apply rules_persist_other; reflexivity ].

(** C4 (amended): the builder is created when the module is loaded and
    is shared by all calls; a call, whatever its world and options and
    whether it gets as far as plugin registration or throws before,
    leaves in the builder every rule that was there, with every member
    of its include and exclude sets and every use it had. *)
Theorem webpackConfig_builder_persists w options target st name r :
  get_rule name st = Some r →
  ∃ r', get_rule name (webpackConfig w options target st).2 = Some r' ∧
        rule_include r ⊆ rule_include r' ∧
        rule_exclude r ⊆ rule_exclude r' ∧
        ChainedMap.keys (rule_uses r) ⊆ ChainedMap.keys (rule_uses r').
Proof.
  revert name r.
  change (rules_persist st (webpackConfig w options target st).2).
  revert st. change (relates rules_persist (webpackConfig w options target)).
  unfold webpackConfig. walk_relates rules_persist_leaf.
Qed.

(** The counterexample to C4: the same call gives a different builder
    when a call with other options came before it.  After a call with
    CSS modules enabled, a call with CSS modules disabled still finds
    the CSS-module rule, and the plain rule still excludes the module
    pattern; from the state the module is loaded in, the same call
    leaves neither. *)
Lemma earlier_call_shows_in_later_call :
  let fresh := (webpackConfig Sample.world Sample.options_plain "web" module_loaded).2 in
  let later :=
    (webpackConfig Sample.world Sample.options_plain "web" Sample.after_first_call).2 in
  get_rule "cssModulesStyles" fresh = None ∧
  is_Some (get_rule "cssModulesStyles" later) ∧
  rule_exclude <$> get_rule "styles" fresh = Some [CondString ""] ∧
  rule_exclude <$> get_rule "styles" later
    = Some [CondRegExp Sample.module_regExp; CondString ""] ∧
  Rule_toConfig <$> ChainedMap.values (module_rules (config later))
    ≠ Rule_toConfig <$> ChainedMap.values (module_rules (config fresh)).
Proof.
  cbv zeta. split; [vm_compute; reflexivity|].
  split; [vm_compute; eexists; reflexivity|].
  split; [vm_compute; reflexivity|].
  split; [vm_compute; reflexivity|].
  vm_compute. discriminate.
Qed.

Lemma webpackConfig_builder_persists_witness :
  ∃ r r',
    get_rule "cssModulesStyles" Sample.after_first_call = Some r ∧
    get_rule "cssModulesStyles"
      (webpackConfig Sample.world Sample.options_plain "web" Sample.after_first_call).2
      = Some r' ∧
    rule_include r ⊆ rule_include r' ∧
    rule_exclude r ⊆ rule_exclude r' ∧
    ChainedMap.keys (rule_uses r) ⊆ ChainedMap.keys (rule_uses r').
Proof.
  destruct (get_rule "cssModulesStyles" Sample.after_first_call) as [r|] eqn:Hr;
    [|vm_compute in Hr; discriminate].
  exists r.
  destruct (webpackConfig_builder_persists Sample.world Sample.options_plain "web"
              Sample.after_first_call "cssModulesStyles" r Hr) as (r' & Hr' & H).
  exists r'. split; [reflexivity|]. split; [exact Hr'|exact H].
Defined.

(** ** The entry the builder receives *)

#[local] Instance same_entryPoints_preorder : PreOrder same_entryPoints.
Proof.
  split; [by intros ?|]. intros a b c Hab Hbc. unfold same_entryPoints in *. congruence.
Qed.

(** C1, as stated, fails: on the sample project [prepare] builds the
    entry map of the app and the two pages, but the call of
    [webpackConfig] returns no configuration (it throws), and the entry
    it has put in the builder is the fixed [index -> src/index.js], not
    that map. *)
Lemma webpackConfig_ignores_entryMap :
  (∃ p, prepare Sample.world Sample.options "web" = Ok p ∧
        p_entryMap p =
          {[ "app" := "/project/src/app.js";
             "pages/index" := "/project/src/pages/index.js";
             "pages/about" := "/project/src/pages/about.tsx" ]}) ∧
  (webpackConfig Sample.world Sample.options "web" module_loaded).1
    = Throw (ReferenceError "VirtualModulePlugin") ∧
  entryPoints (config (webpackConfig Sample.world Sample.options "web" module_loaded).2)
    = [("index", ["src/index.js"])].
Proof.
  split; [eexists; split; vm_compute; reflexivity|].
  split; vm_compute; reflexivity.
Qed.

(** C1 (amended): whatever the options and the platform, once
    [prepare] has returned, [webpackConfig] registers one entry in the
    builder, [index], and adds to it the one module [src/index.js];
    the entry map of [prepare] does not reach the builder.  On a
    builder just loaded the entry mapping is exactly
    [index -> src/index.js]. *)
Theorem webpackConfig_entry_is_fixed w options target st :
  is_Ok (prepare w options target) →
  entryPoints (config (webpackConfig w options target st).2)
    = ChainedMap.update "index" [] (ChainedSet.add "src/index.js")
        (entryPoints (config st)) ∧
  (entryPoints (config st) = [] →
   entryPoints (config (webpackConfig w options target st).2)
     = [("index", ["src/index.js"])]).
Proof.
  intros Hp.
  assert (Hrun : entryPoints (config (webpackConfig w options target st).2)
                 = ChainedMap.update "index" [] (ChainedSet.add "src/index.js")
                     (entryPoints (config st))).
  { unfold webpackConfig. destruct (prepare w options target) as [p|]; [|done].
    rewrite M_bind_unfold. cbn [lift]. cbv beta zeta.
    rewrite M_bind_unfold. unfold entry_add at 1. cbn [modify].
    match goal with
    | |- entryPoints (config (?m ?s).2) = _ =>
        transitivity (entryPoints (config s)); [|reflexivity];
        generalize s; change (relates same_entryPoints m)
    end.
    walk_relates ltac:(by intros ?). }
  split; [exact Hrun|]. intros Hfresh. by rewrite Hrun, Hfresh.
Qed.

Lemma webpackConfig_entry_is_fixed_witness :
  entryPoints (config (webpackConfig Sample.world Sample.options "web" module_loaded).2)
    = ChainedMap.update "index" [] (ChainedSet.add "src/index.js")
        (entryPoints (config module_loaded)) ∧
  (entryPoints (config module_loaded) = [] →
   entryPoints (config (webpackConfig Sample.world Sample.options "web" module_loaded).2)
     = [("index", ["src/index.js"])]).
Proof.
  apply (webpackConfig_entry_is_fixed Sample.world Sample.options "web" module_loaded).
  vm_compute; exact I.
Defined.

(** ** The style rules *)

#[local] Instance keeps_preorder (I : State → Prop) : PreOrder (keeps I).
Proof.
  split.
  - intros st Hst. exact Hst.
  - intros a b c Hab Hbc Ha. apply Hbc, Hab, Ha.
Qed.

Lemma keeps_module_rule_update name f :
  (name = "cssModulesStyles" → ∀ r, rule_exclude (f r) = rule_exclude r) →
  relates (keeps module_rule_excludes_nothing) (modify (update_rule name f)).
Proof.
  intros Hf st Hst r. unfold module_rule_excludes_nothing, get_rule in *. simpl.
  destruct (decide (name = "cssModulesStyles")) as [->|Hne].
  - rewrite ChainedMap_get_update_eq. intros [= <-]. rewrite Hf by done.
    destruct (ChainedMap.get _ _) as [r0|]; simpl; [by apply Hst|done].
  - rewrite ChainedMap_get_update_ne by done. apply Hst.
Qed.

Lemma keeps_module_rule_other f :
  (∀ c, module_rules (f c) = module_rules c) →
  relates (keeps module_rule_excludes_nothing) (modify f).
Proof.
  intros Hf st Hst r. unfold module_rule_excludes_nothing, get_rule in *. simpl.
  rewrite Hf. apply Hst.
Qed.

Ltac keeps_module_rule_leaf :=
  first
    [ apply keeps_module_rule_update;
      let Hn := fresh in intros Hn ?; first [discriminate Hn|reflexivity]
    | apply keeps_module_rule_other; reflexivity ].

(** In every state calls can produce, the CSS-module rule, once it is
    there, excludes nothing. *)
Lemma Reachable_module_rule st : Reachable st → module_rule_excludes_nothing st.
Proof.
  induction 1 as [|w options target st _ IH]; [by intros r|].
  revert IH. generalize st.
  change (relates (keeps module_rule_excludes_nothing) (webpackConfig w options target)).
  unfold webpackConfig. walk_relates keeps_module_rule_leaf.
Qed.

Lemma identifier_VirtualModulePlugin st :
  identifier "VirtualModulePlugin" st
    = (Throw (ReferenceError "VirtualModulePlugin"), st).
Proof. reflexivity. Qed.

Lemma ChainedMap_get_update {V} (k k' : string) (fresh : V) f m :
  ChainedMap.get k (ChainedMap.update k' fresh f m) =
    if String.eqb k' k then Some (f (default fresh (ChainedMap.get k' m)))
    else ChainedMap.get k m.
Proof. unfold ChainedMap.update. by rewrite ChainedMap_get_set. Qed.

Lemma required_loaders_base w id :
  id ∈ ["babel"; "postcss"; "css"; "json"; "remax-define"; "file"; "resolve-platform"] →
  id ∈ required_loaders w.
Proof.
  intros Hid. unfold required_loaders. rewrite !elem_of_app.
  repeat (apply elem_of_cons in Hid as [->|Hid]);
    [left|left|do 4 right|do 4 right|do 4 right|do 4 right|do 4 right|
     by apply elem_of_nil in Hid].
  all: apply (bool_decide_unpack _); vm_compute; exact I.
Qed.

(** Every loader of [required_loaders] resolves, by [Hl]: first those
    every run resolves, then, once it is known which preprocessors are
    enabled, theirs. *)
Ltac resolve_base Hl :=
  let Hb := fresh in
  pose proof (proj1 (Forall_forall _ _) Hl) as Hb;
  repeat match goal with
  | |- context [useLoader ?w ?id] =>
      let H := fresh in
      assert (H : is_Ok (useLoader w id))
        by (apply Hb, required_loaders_base, (bool_decide_unpack _); vm_compute; exact I);
      let E := fresh in
      destruct (useLoader w id) eqn:E; [clear H|done]
  end;
  clear Hb.

Ltac resolved_everywhere :=
  repeat match goal with
  | E : useLoader _ _ = Ok _ |- _ => rewrite ?E; clear E
  end.

Ltac resolve_required Hl :=
  cbn [app] in Hl;
  repeat (let H := fresh in apply Forall_cons in Hl as [H Hl]);
  repeat match goal with
  | H : Is_true (is_Ok (useLoader ?w ?id)), E : useLoader ?w ?id = Ok _ |- _ => clear H
  | H : Is_true (is_Ok (useLoader ?w ?id)) |- _ =>
      destruct (useLoader w id); [clear H|done]
  end.

Lemma required_loaders_optional w module id :
  (module, id) ∈ [("less", "less"); ("node-sass", "sass"); ("stylus", "stylus")] →
  styleConfig_enabled w module = true →
  id ∈ required_loaders w.
Proof.
  intros Hid Hen. unfold required_loaders. rewrite !elem_of_app.
  repeat (apply elem_of_cons in Hid as [[= -> ->]|Hid]);
    [| | |by apply elem_of_nil in Hid].
  all: rewrite Hen.
  - right; left. by left.
  - do 2 right; left. by left.
  - do 3 right; left. by left.
Qed.

(** Runs a computation on an explicit state, as far as its
    collaborators are known. *)
Ltac run_builder :=
  cbv [mbind M_bind mret M_ret lift modify forEach filter_Boolean
       entry_add set_devtool set_mode set_context set_output_path
       set_output_filename resolve_extensions_merge resolve_alias_merge
       rule_set_test rule_include_add rule_include_merge rule_exclude_add
       rule_use use_set_loader use_set_options plugin plugin_use
       use_preprocessCssRules config events entryPoints cfg_devtool cfg_mode
       cfg_context resolve_extensions resolve_alias output_path output_filename
       module_rules plugins update_rule update_plugin pp_name pp_loader pp_options
       default from_option id fst snd get_rule].

(** Runs the body on an explicit state up to the unbound identifier and
    leaves the rules of the state it stops in. *)
Ltac run_to_registration :=
  cbv [mbind M_bind mret M_ret lift modify forEach filter_Boolean
       entry_add set_devtool set_mode set_context set_output_path
       set_output_filename resolve_extensions_merge resolve_alias_merge
       rule_set_test rule_include_add rule_include_merge rule_exclude_add
       rule_use use_set_loader use_set_options plugin plugin_use
       use_preprocessCssRules config events entryPoints cfg_devtool cfg_mode
       cfg_context resolve_extensions resolve_alias output_path output_filename
       module_rules plugins update_rule update_plugin pp_name pp_loader pp_options
       default from_option id];
  rewrite identifier_VirtualModulePlugin;
  cbv [snd get_rule config module_rules].

Ltac lookup_rule :=
  repeat (rewrite ChainedMap_get_update; cbn [String.eqb Ascii.eqb Bool.eqb]).

Section Claims.

Variable regexp_test : RegExp → string → bool.

Lemma rule_claims_test r re resource :
  rule_test r = Some re →
  rule_claims regexp_test r resource = true → regexp_test re resource = true.
Proof.
  unfold rule_claims. intros ->. intros [Htest _]%andb_prop.
  by apply andb_prop in Htest as [? _].
Qed.

Lemma existsb_condition c l resource :
  c ∈ l → condition_matches regexp_test c resource = true →
  existsb (λ c, condition_matches regexp_test c resource) l = true.
Proof. intros Hc Hm. apply existsb_exists. exists c. by rewrite <- list_elem_of_In. Qed.

Lemma rule_claims_excluded r c resource :
  c ∈ rule_exclude r → condition_matches regexp_test c resource = true →
  rule_claims regexp_test r resource = false.
Proof.
  intros Hc Hm. unfold rule_claims.
  rewrite (existsb_condition c (rule_exclude r)) by done.
  simpl. apply andb_false_r.
Qed.

Lemma rule_claims_included r re c resource :
  rule_test r = Some re → regexp_test re resource = true →
  c ∈ rule_include r → condition_matches regexp_test c resource = true →
  rule_exclude r = [] →
  rule_claims regexp_test r resource = true.
Proof.
  intros Ht Hre Hc Hm He. unfold rule_claims.
  rewrite Ht, Hre, He, (existsb_condition c (rule_include r)) by done.
  simpl. by rewrite orb_true_r.
Qed.

End Claims.

Lemma Sample_loaders_resolve id : is_Ok (useLoader Sample.world id).
Proof. unfold useLoader. simpl. by destruct (bool_decide _). Qed.

Lemma exclusive_rules regexp_test plain module_rule R :
  CondRegExp R ∈ rule_exclude plain →
  rule_test module_rule = Some R →
  CondRegExp R ∈ rule_include module_rule →
  rule_exclude module_rule = [] →
  (∀ resource,
     rule_claims regexp_test module_rule resource = true →
     rule_claims regexp_test plain resource = false) ∧
  (∀ resource,
     regexp_test R resource = true →
     rule_claims regexp_test module_rule resource = true ∧
     rule_claims regexp_test plain resource = false).
Proof.
  intros Hplain Htest Hinclude Hexclude. split.
  - intros resource Hm.
    apply (rule_claims_excluded regexp_test plain (CondRegExp R)); [done|].
    by apply (rule_claims_test regexp_test module_rule R).
  - intros resource Hm. split.
    + by apply (rule_claims_included regexp_test module_rule R (CondRegExp R)).
    + by apply (rule_claims_excluded regexp_test plain (CondRegExp R)).
Qed.

(** C7: when [cssModules.enabled] is true and the run gets to plugin
    registration ([prepare] returns and every loader the body resolves
    resolves), the plain style rule excludes what the CSS-module rule
    tests for: no resource is claimed by both rules, and a
    resource the module pattern matches is claimed by the module rule
    and not by the plain rule.  This holds in every builder state that
    calls of [webpackConfig] produce, whatever the pattern engine; the
    exclusion comes from the RegExp condition of line 115, so it does
    not rest on how a string condition an earlier call left is read. *)
Theorem css_module_files_claimed_once regexp_test w options target st :
  Reachable st →
  enabled (getCssModuleConfig w (cssModules options)) = true →
  is_Ok (prepare w options target) →
  Forall (λ id, is_Ok (useLoader w id)) (required_loaders w) →
  ∃ plain module_rule,
    get_rule "styles" (webpackConfig w options target st).2 = Some plain ∧
    get_rule "cssModulesStyles" (webpackConfig w options target st).2
      = Some module_rule ∧
    rule_test plain = Some styles_test ∧
    rule_test module_rule = Some (regExp (getCssModuleConfig w (cssModules options))) ∧
    (∀ resource,
       rule_claims regexp_test module_rule resource = true →
       rule_claims regexp_test plain resource = false) ∧
    (∀ resource,
       regexp_test (regExp (getCssModuleConfig w (cssModules options))) resource = true →
       rule_claims regexp_test module_rule resource = true ∧
       rule_claims regexp_test plain resource = false).
Proof.
  intros Hreach Hen Hp Hl.
  pose proof (Reachable_module_rule _ Hreach) as Hinv. clear Hreach.
  destruct st as [[ep dt md cx rex ral op ofn rules plugs] evs].
  unfold module_rule_excludes_nothing, get_rule in Hinv. simpl in Hinv.
  unfold webpackConfig, optional_preprocessor.
  destruct (prepare w options target) as [p|]; [|done].
  resolve_base Hl. unfold required_loaders in Hl. rewrite Hen.
  set (R := regExp (getCssModuleConfig w (cssModules options))).
  destruct (styleConfig_enabled w "less"), (styleConfig_enabled w "node-sass"),
    (styleConfig_enabled w "stylus").
  all: resolve_required Hl.
  all: run_to_registration; lookup_rule.
  all: match goal with
       | |- ∃ plain module_rule, Some ?P = Some plain ∧ Some ?M = Some module_rule ∧ _ =>
           exists P, M
       end.
  all: split; [reflexivity|]; split; [reflexivity|].
  all: split; [reflexivity|]; split; [reflexivity|].
  all: apply (exclusive_rules regexp_test _ _ R); [| reflexivity | |].
  all: cbn [rule_exclude rule_include update_use default from_option id].
  all: try apply ChainedSet_add_elem.
  all: destruct (ChainedMap.get "cssModulesStyles" rules) as [r1|]; [by apply Hinv|done].
Qed.

Lemma css_module_files_claimed_once_witness :
  ∃ plain module_rule,
    get_rule "styles" (webpackConfig Sample.world Sample.options "web" module_loaded).2
      = Some plain ∧
    get_rule "cssModulesStyles"
      (webpackConfig Sample.world Sample.options "web" module_loaded).2
      = Some module_rule ∧
    rule_test plain = Some styles_test ∧
    rule_test module_rule
      = Some (regExp (getCssModuleConfig Sample.world (cssModules Sample.options))) ∧
    (∀ resource,
       rule_claims Sample.regexp_test module_rule resource = true →
       rule_claims Sample.regexp_test plain resource = false) ∧
    (∀ resource,
       Sample.regexp_test
         (regExp (getCssModuleConfig Sample.world (cssModules Sample.options)))
         resource = true →
       rule_claims Sample.regexp_test module_rule resource = true ∧
       rule_claims Sample.regexp_test plain resource = false).
Proof.
  apply (css_module_files_claimed_once Sample.regexp_test Sample.world Sample.options
           "web" module_loaded).
  - apply Reachable_loaded.
  - vm_compute; reflexivity.
  - vm_compute; exact I.
  - apply Forall_forall. intros id _. apply Sample_loaders_resolve.
Defined.




(** C8 (what the code does): with [cssModules.enabled] false, on the
    sample project and a builder just loaded, no CSS-module rule is
    registered, and the plain style rule tests for the style
    extensions, but its exclude set is not empty: it holds the empty
    string, a condition every resource starts with.  Whatever the
    pattern engine, the plain rule claims no resource at all. *)
Theorem plain_rule_excludes_every_resource :
  enabled (getCssModuleConfig Sample.world (cssModules Sample.options_plain)) = false ∧
  get_rule "cssModulesStyles"
    (webpackConfig Sample.world Sample.options_plain "web" module_loaded).2 = None ∧
  ∃ plain,
    get_rule "styles" (webpackConfig Sample.world Sample.options_plain "web" module_loaded).2
      = Some plain ∧
    rule_test plain = Some styles_test ∧
    rule_exclude plain = [CondString ""] ∧
    ∀ regexp_test resource, rule_claims regexp_test plain resource = false.
Proof.
  split; [vm_compute; reflexivity|]. split; [vm_compute; reflexivity|].
  eexists. split; [vm_compute; reflexivity|].
  split; [reflexivity|]. split; [reflexivity|].
  intros regexp_test resource.
  apply (rule_claims_excluded regexp_test _ (CondString "")); [set_solver|].
  simpl. by destruct resource.
Qed.

(** ** Where a call stops *)

Ltac member_required w :=
  first
    [ apply required_loaders_base, (bool_decide_unpack _); vm_compute; exact I
    | apply (required_loaders_optional w "less" "less");
      [apply (bool_decide_unpack _); vm_compute; exact I|assumption]
    | apply (required_loaders_optional w "node-sass" "sass");
      [apply (bool_decide_unpack _); vm_compute; exact I|assumption]
    | apply (required_loaders_optional w "stylus" "stylus");
      [apply (bool_decide_unpack _); vm_compute; exact I|assumption] ].

(** A run that stops at the loader [id], which does not resolve. *)
Ltac stops_at w id E :=
  eexists _, _; split; [run_builder; reflexivity|];
  right; split;
  [ let HF := fresh in
    intros [_ HF]; rewrite Forall_forall in HF;
    specialize (HF id ltac:(member_required w)); rewrite E in HF; exact HF
  | split; [right; exists id; split; [member_required w|exact E]|reflexivity] ].

Ltac resolves_or_stops w id :=
  cbv iota;
  let E := fresh "E" in
  destruct (useLoader w id) eqn:E; [|stops_at w id E].

Lemma webpackConfig_stops w options target st :
  ∃ e st', webpackConfig w options target st = (Throw e, st') ∧
    ((is_Ok (prepare w options target) ∧
      Forall (λ id, is_Ok (useLoader w id)) (required_loaders w)) ∧
     e = ReferenceError "VirtualModulePlugin" ∧
     plugins (config st')
       = ChainedMap.update "virtualModule" new_Plugin (λ p, p) (plugins (config st))
     ∨
     ¬ (is_Ok (prepare w options target) ∧
        Forall (λ id, is_Ok (useLoader w id)) (required_loaders w)) ∧
     stopped_by w options target e ∧
     plugins (config st') = plugins (config st)).
Proof.
  destruct st as [[ep dt md cx rex ral op ofn rules plugs] evs].
  unfold stopped_by, webpackConfig, optional_preprocessor.
  destruct (prepare w options target) as [p|e] eqn:Hp.
  2: { exists e. eexists. split; [reflexivity|]. right.
       split; [by intros [? _]|]. split; [by left|reflexivity]. }
  resolves_or_stops w "babel". resolves_or_stops w "postcss".
  destruct (styleConfig_enabled w "less") eqn:Hless;
    [resolves_or_stops w "less"|cbv iota].
  all: destruct (styleConfig_enabled w "node-sass") eqn:Hsass;
    [resolves_or_stops w "sass"|cbv iota].
  all: destruct (styleConfig_enabled w "stylus") eqn:Hstylus;
    [resolves_or_stops w "stylus"|cbv iota].
  all: resolves_or_stops w "css".
  all: destruct (enabled (getCssModuleConfig w (cssModules options))).
  all: resolves_or_stops w "json"; resolves_or_stops w "remax-define";
    resolves_or_stops w "file"; resolves_or_stops w "resolve-platform".
  all: eexists _, _; split; [run_builder; reflexivity|].
  all: left; split; [|split; reflexivity].
  all: split; [done|].
  all: unfold required_loaders; rewrite Hless, Hsass, Hstylus; cbn [app].
  all: repeat first
         [ apply Forall_nil_2
         | apply Forall_cons_2;
           [ cbv beta;
             match goal with
             | E : useLoader _ ?id = Ok _ |- Is_true (is_Ok (useLoader _ ?id)) =>
                 rewrite E; exact I
             end | ] ].
Qed.

(** C2 (amended): nothing binds the identifiers [VirtualModulePlugin]
    and [meta], so evaluating either throws a ReferenceError, and no
    call of [webpackConfig] returns a configuration.  The error at
    plugin registration, the ReferenceError for [VirtualModulePlugin],
    is reached when [prepare] returns and every loader the body
    resolves resolves: the call then throws that error, having opened
    the plugin slot [virtualModule] and nothing else.  Otherwise the
    call throws before plugin registration, the error of [prepare] or
    of a loader of the body that does not resolve, and touches no
    plugin slot. *)
Theorem webpackConfig_never_returns w options target st :
  (identifier "VirtualModulePlugin" st).1 = Throw (ReferenceError "VirtualModulePlugin") ∧
  (identifier "meta" st).1 = Throw (ReferenceError "meta") ∧
  (∃ e, (webpackConfig w options target st).1 = Throw e) ∧
  (is_Ok (prepare w options target) ∧
   Forall (λ id, is_Ok (useLoader w id)) (required_loaders w) →
   (webpackConfig w options target st).1 = Throw (ReferenceError "VirtualModulePlugin") ∧
   plugins (config (webpackConfig w options target st).2)
     = ChainedMap.update "virtualModule" new_Plugin (λ p, p) (plugins (config st))) ∧
  (¬ (is_Ok (prepare w options target) ∧
      Forall (λ id, is_Ok (useLoader w id)) (required_loaders w)) →
   (∃ e, (webpackConfig w options target st).1 = Throw e ∧ stopped_by w options target e) ∧
   plugins (config (webpackConfig w options target st).2) = plugins (config st)).
Proof.
  split; [reflexivity|]. split; [reflexivity|].
  destruct (webpackConfig_stops w options target st)
    as (e & st' & -> & [(Hall & -> & Hplugins)|(Hnot & Hstop & Hplugins)]);
    cbn [fst snd].
  - split; [by eexists|]. split; [done|]. by intros Hnot.
  - split; [by eexists|]. split; [by intros Hall|]. intros _. split; [|done]. by exists e.
Qed.

Lemma webpackConfig_never_returns_witness :
  (webpackConfig Sample.world Sample.options "web" module_loaded).1
    = Throw (ReferenceError "VirtualModulePlugin") ∧
  plugins (config (webpackConfig Sample.world Sample.options "web" module_loaded).2)
    = [("virtualModule", new_Plugin)].
Proof.
  apply (webpackConfig_never_returns Sample.world Sample.options "web" module_loaded).
  split.
  - vm_compute; exact I.
  - apply Forall_forall. intros id _. apply Sample_loaders_resolve.
Defined.

(** C2 (as stated) fails where [babel-loader] is not installed: the
    call throws the resolver's error at line 75, not the
    ReferenceError, and plugin registration is not reached: the builder
    has no plugin slot. *)
Lemma webpackConfig_stops_before_registration :
  (webpackConfig Scenario.world_without_babel Sample.options "web" module_loaded).1
    = Throw (ModuleNotFound "babel-loader") ∧
  (webpackConfig Scenario.world_without_babel Sample.options "web" module_loaded).1
    ≠ Throw (ReferenceError "VirtualModulePlugin") ∧
  plugins (config (webpackConfig Scenario.world_without_babel Sample.options "web"
                     module_loaded).2) = [].
Proof.
  split; [vm_compute; reflexivity|]. split; [vm_compute; discriminate|].
  vm_compute; reflexivity.
Qed.

(** * Further properties *)

(** ** [prepare]: the keys of the entry map *)

(** Whatever the entries, each slot of the map a fold builds is a slot
    of the map it started from or holds an entry of the list under the
    name computed for it. *)
Lemma reduce_entries_sound w options l acc m name entry :
  reduce (entry_step w options) l acc = Ok m →
  m !! name = Some entry →
  acc !! name = Some entry ∨
  (entry ∈ l ∧ entry_name w options entry = Ok name ∧ name ≠ "__proto__").
Proof.
  revert acc. induction l as [|e l IH]; intros acc.
  - intros [= <-]. by left.
  - rewrite reduce_cons.
    destruct (entry_name w options e) as [n|err] eqn:Hn;
      [|by rewrite (entry_step_Throw _ _ _ _ _ Hn)].
    rewrite (entry_step_Ok _ _ _ _ _ Hn), Res_bind_Ok. intros Hm Hlook.
    destruct (IH _ Hm Hlook) as [Hacc|(Hin & Hname & Hproto)].
    + unfold object_set in Hacc. case_bool_decide as Hp; [by left|].
      destruct (decide (n = name)) as [->|Hne].
      * rewrite lookup_insert_eq in Hacc. injection Hacc as <-.
        right. split; [by left|]. split; [done|]. done.
      * rewrite lookup_insert_ne in Hacc by done. by left.
    + right. split; [by right|]. done.
Qed.

Lemma reduce_entries_keeps w options l acc m name :
  reduce (entry_step w options) l acc = Ok m →
  is_Some (acc !! name) → is_Some (m !! name).
Proof.
  revert acc. induction l as [|e l IH]; intros acc.
  - by intros [= <-].
  - rewrite reduce_cons.
    destruct (entry_name w options e) as [n|err] eqn:Hn;
      [|by rewrite (entry_step_Throw _ _ _ _ _ Hn)].
    rewrite (entry_step_Ok _ _ _ _ _ Hn), Res_bind_Ok. intros Hm Hacc.
    apply (IH _ Hm). unfold object_set. case_bool_decide; [done|].
    destruct (decide (n = name)) as [->|Hne].
    + rewrite lookup_insert_eq. by eexists.
    + by rewrite lookup_insert_ne.
Qed.

Lemma reduce_entries_complete w options l acc m name entry :
  reduce (entry_step w options) l acc = Ok m →
  entry ∈ l → entry_name w options entry = Ok name → name ≠ "__proto__" →
  is_Some (m !! name).
Proof.
  revert acc. induction l as [|e l IH]; intros acc; [by inversion 2|].
  rewrite reduce_cons.
  destruct (entry_name w options e) as [n|err] eqn:Hn;
    [|by rewrite (entry_step_Throw _ _ _ _ _ Hn)].
  rewrite (entry_step_Ok _ _ _ _ _ Hn), Res_bind_Ok.
  intros Hm [->|Hin]%elem_of_cons Hname Hproto.
  - apply (reduce_entries_keeps _ _ _ _ _ _ Hm). unfold object_set.
    rewrite Hn in Hname. injection Hname as ->.
    rewrite bool_decide_eq_false_2 by done. rewrite lookup_insert_eq. by eexists.
  - by apply (IH _ Hm).
Qed.

Lemma reduce_entries_size w options l acc m :
  reduce (entry_step w options) l acc = Ok m →
  (size m ≤ size acc + List.length l)%nat.
Proof.
  revert acc. induction l as [|e l IH]; intros acc.
  - intros [= <-]. simpl. lia.
  - rewrite reduce_cons.
    destruct (entry_name w options e) as [n|err] eqn:Hn;
      [|by rewrite (entry_step_Throw _ _ _ _ _ Hn)].
    rewrite (entry_step_Ok _ _ _ _ _ Hn), Res_bind_Ok. intros Hm.
    apply IH in Hm. simpl.
    assert (size (object_set acc n e) ≤ S (size acc))%nat; [|lia].
    unfold object_set. case_bool_decide; [lia|].
    destruct (acc !! n) eqn:Hacc.
    + rewrite map_size_insert_Some by done. lia.
    + rewrite map_size_insert_None by done. lia.
Qed.

Lemma reduce_entries_Ok w options l acc m :
  reduce (entry_step w options) l acc = Ok m →
  Forall (λ e, is_Ok (entry_name w options e)) l.
Proof.
  revert acc. induction l as [|e l IH]; intros acc; [by constructor|].
  rewrite reduce_cons.
  destruct (entry_name w options e) as [n|err] eqn:Hn;
    [|by rewrite (entry_step_Throw _ _ _ _ _ Hn)].
  rewrite (entry_step_Ok _ _ _ _ _ Hn), Res_bind_Ok. intros Hm.
  constructor; [by rewrite Hn|by eapply IH].
Qed.

Lemma prepare_Ok_inv w options target p :
  prepare w options target = Ok p →
  getEntries w options = Ok (p_entries p) ∧
  reduce (entry_step w options)
    (entries_app (p_entries p) :: entries_pages (p_entries p)) ∅ = Ok (p_entryMap p).
Proof.
  unfold prepare. destruct (getEntries w options) as [es|]; [|done].
  rewrite Res_bind_Ok.
  destruct (reduce _ _ _) as [m|] eqn:Hm; [|done]. rewrite Res_bind_Ok.
  cbv zeta. unfold mret, Res_ret. by intros [= <-].
Qed.

(** X1: the keys of the entry map are exactly the names computed for
    the entries, [__proto__] apart, and each key maps to an entry of
    that name; the map never has more slots than there are entries. *)
Theorem prepare_entryMap_keys w options target p :
  prepare w options target = Ok p →
  let entries := entries_app (p_entries p) :: entries_pages (p_entries p) in
  (∀ name, is_Some (p_entryMap p !! name) ↔
           name ≠ "__proto__" ∧
           ∃ entry, entry ∈ entries ∧ entry_name w options entry = Ok name) ∧
  (∀ name entry, p_entryMap p !! name = Some entry →
                 entry ∈ entries ∧ entry_name w options entry = Ok name) ∧
  (size (p_entryMap p) ≤ List.length entries)%nat.
Proof.
  intros [_ Hm]%prepare_Ok_inv entries. split; [|split].
  - intros name. split.
    + intros [entry Hentry].
      destruct (reduce_entries_sound _ _ _ _ _ _ _ Hm Hentry) as [?|(?&?&?)]; [done|].
      eauto.
    + intros [Hproto (entry & Hin & Hname)].
      by apply (reduce_entries_complete _ _ _ _ _ _ _ Hm Hin Hname).
  - intros name entry Hentry.
    destruct (reduce_entries_sound _ _ _ _ _ _ _ Hm Hentry) as [?|(?&?&?)]; [done|].
    done.
  - apply reduce_entries_size in Hm. rewrite map_size_empty in Hm. fold entries in Hm. lia.
Qed.

Lemma prepare_entryMap_keys_witness :
  ∃ p, prepare Sample.world_colliding Sample.options "web" = Ok p ∧
  let entries := entries_app (p_entries p) :: entries_pages (p_entries p) in
  (∀ name, is_Some (p_entryMap p !! name) ↔
           name ≠ "__proto__" ∧
           ∃ entry, entry ∈ entries ∧
                    entry_name Sample.world_colliding Sample.options entry = Ok name) ∧
  (∀ name entry, p_entryMap p !! name = Some entry →
                 entry ∈ entries ∧
                 entry_name Sample.world_colliding Sample.options entry = Ok name) ∧
  (size (p_entryMap p) ≤ List.length entries)%nat.
Proof.
  destruct (prepare Sample.world_colliding Sample.options "web") as [p|] eqn:Hp;
    [|vm_compute in Hp; discriminate].
  exists p. split; [reflexivity|].
  exact (prepare_entryMap_keys Sample.world_colliding Sample.options "web" p Hp).
Defined.

(** X2: [prepare] returns exactly when [getEntries] returns and a name
    can be computed for every entry; a collision of names is no reason
    for it to throw. *)
Theorem prepare_returns_iff w options target :
  is_Ok (prepare w options target) ↔
  ∃ es, getEntries w options = Ok es ∧
        Forall (λ e, is_Ok (entry_name w options e))
          (entries_app es :: entries_pages es).
Proof.
  split.
  - destruct (prepare w options target) as [p|] eqn:Hp; [|done]. intros _.
    apply prepare_Ok_inv in Hp as [Hes Hm]. exists (p_entries p). split; [done|].
    by eapply reduce_entries_Ok.
  - intros (es & Hes & Hall). unfold prepare. rewrite Hes, Res_bind_Ok.
    destruct (reduce_entries_total w options _ ∅ Hall) as [m ->]. done.
Qed.

(** ** The name of an entry *)

Lemma replace_absent pattern replacement s :
  occurs pattern s = false → JsString.replace pattern replacement s = s.
Proof.
  induction s as [|c s IH]; simpl.
  - by destruct (JsString.strip_prefix pattern "").
  - destruct (JsString.strip_prefix pattern (String c s)); [done|].
    intros H. by rewrite IH.
Qed.

(** X3: an entry that does not contain [cwd/rootDir/] keeps its whole
    path, the extension stripped, as its name. *)
Theorem entry_name_outside_root w options entry stem :
  occurs (path.join [cwd options; rootDir options] +:+ "/") entry = false →
  plain_extension entry →
  strip_suffix (path.extname entry) entry = Some stem →
  entry_name w options entry = Ok stem.
Proof.
  intros Habsent [p Hp] Hstem. unfold entry_name.
  rewrite Hp, (replace_absent _ _ _ Habsent).
  apply strip_suffix_Some in Hstem. rewrite Hstem at 1.
  by rewrite (replace_extension _ _ _ Hp).
Qed.

Lemma entry_name_outside_root_witness :
  entry_name Sample.world Sample.options "/elsewhere/pages/index.tsx"
    = Ok "/elsewhere/pages/index".
Proof.
  apply (entry_name_outside_root Sample.world Sample.options
           "/elsewhere/pages/index.tsx" "/elsewhere/pages/index").
  - vm_compute; reflexivity.
  - vm_compute; eexists; reflexivity.
  - vm_compute; reflexivity.
Defined.

(** ** What every call keeps *)

Lemma ChainedMap_keys_set_prefix {V} (k : string) (v : V) m :
  ChainedMap.keys m `prefix_of` ChainedMap.keys (ChainedMap.set k v m).
Proof.
  unfold ChainedMap.keys. induction m as [|[k0 v0] m IH]; simpl.
  - apply prefix_nil.
  - destruct (String.eqb k0 k); simpl; [done|]. by apply prefix_cons.
Qed.

Lemma ChainedMap_keys_set_elem {V} (k : string) (v : V) m x :
  x ∈ ChainedMap.keys (ChainedMap.set k v m) → x = k ∨ x ∈ ChainedMap.keys m.
Proof.
  unfold ChainedMap.keys. induction m as [|[k0 v0] m IH]; simpl.
  - intros ->%list_elem_of_singleton. by left.
  - destruct (String.eqb k0 k) eqn:E; simpl.
    + intros H. by right.
    + intros [->|H]%elem_of_cons; [right; by left|].
      destruct (IH H) as [->|?]; [by left|right; by right].
Qed.

Lemma ChainedMap_keys_set_NoDup {V} (k : string) (v : V) m :
  NoDup (ChainedMap.keys m) → NoDup (ChainedMap.keys (ChainedMap.set k v m)).
Proof.
  induction m as [|[k0 v0] m IH]; simpl.
  - intros _. apply NoDup_singleton.
  - intros [Hk0 Hm]%NoDup_cons. destruct (String.eqb k0 k) eqn:E; simpl.
    + by apply NoDup_cons.
    + apply NoDup_cons. split; [|by apply IH].
      intros [->|H]%ChainedMap_keys_set_elem; [|done].
      by rewrite String.eqb_refl in E.
Qed.

#[local] Instance rule_order_grows_preorder : PreOrder rule_order_grows.
Proof.
  split.
  - intros st. unfold rule_order_grows. done.
  - intros a b c. unfold rule_order_grows. apply transitivity.
Qed.

Lemma relates_modify_rules (R : relation State) f :
  (∀ st, R st {| config := f (config st); events := events st |}) →
  relates R (modify f).
Proof. intros H st. apply H. Qed.

Ltac rule_order_leaf :=
  apply relates_modify_rules; intros ?;
  unfold rule_order_grows, rule_names, update_rule, update_plugin, ChainedMap.update;
  cbn [config module_rules];
  first [ apply ChainedMap_keys_set_prefix | done ].

(** X4: a call never removes or reorders rules: the rule names the
    builder held before the call are a prefix of those it holds after,
    whether the call gets to plugin registration or throws before. *)
Theorem webpackConfig_rule_order_grows w options target st :
  rule_names st `prefix_of` rule_names (webpackConfig w options target st).2.
Proof.
  revert st. change (relates rule_order_grows (webpackConfig w options target)).
  unfold webpackConfig. walk_relates rule_order_leaf.
Qed.

Ltac rule_names_leaf :=
  apply relates_modify_rules; intros ?;
  unfold keeps, rule_names_unique, rule_names, update_rule, update_plugin,
    ChainedMap.update;
  cbn [config module_rules];
  first [ apply ChainedMap_keys_set_NoDup | done ].

(** X5: in every builder state calls can produce, no rule name occurs
    twice: declaring a rule again reuses the rule of that name. *)
Theorem Reachable_rule_names_unique st : Reachable st → NoDup (rule_names st).
Proof.
  induction 1 as [|w options target st _ IH]; [apply NoDup_nil_2|].
  revert IH. generalize st.
  change (relates (keeps rule_names_unique) (webpackConfig w options target)).
  unfold webpackConfig. walk_relates rule_names_leaf.
Qed.

Lemma Reachable_rule_names_unique_witness : NoDup (rule_names Sample.after_first_call).
Proof.
  apply Reachable_rule_names_unique.
  apply Reachable_call, Reachable_loaded.
Defined.

Ltac entry_leaf :=
  apply relates_modify_rules; intros ?;
  unfold keeps, entry_unset_or_fixed, update_rule, update_plugin;
  cbn [config entryPoints];
  first [ done | intros [->| ->]; by right ].

(** X6: in every builder state calls can produce, the builder has no
    entry or exactly the entry [index -> src/index.js]: repeated calls
    do not add the module a second time. *)
Theorem Reachable_entry st : Reachable st → entry_unset_or_fixed st.
Proof.
  induction 1 as [|w options target st _ IH]; [by left|].
  revert IH. generalize st.
  change (relates (keeps entry_unset_or_fixed) (webpackConfig w options target)).
  unfold webpackConfig. walk_relates entry_leaf.
Qed.

Lemma Reachable_entry_witness :
  entry_unset_or_fixed
    (webpackConfig Sample.world Sample.options_plain "web" Sample.after_first_call).2.
Proof.
  apply Reachable_entry.
  apply Reachable_call, Reachable_call, Reachable_loaded.
Defined.

Ltac plugin_leaf :=
  apply relates_modify_rules; intros ?;
  unfold keeps, no_plugin_registered, update_rule, update_plugin;
  cbn [config plugins];
  first [ done | intros [->| ->]; by right ].

(** X7: in every builder state calls can produce, none of the plugins
    of lines 193-208 (progress, define, cssExtract, optimizeEntries,
    nativeFiles, clean) is registered, and the slot [virtualModule],
    if there, holds no plugin. *)
Theorem Reachable_plugins st : Reachable st → no_plugin_registered st.
Proof.
  induction 1 as [|w options target st _ IH]; [by left|].
  revert IH. generalize st.
  change (relates (keeps no_plugin_registered) (webpackConfig w options target)).
  unfold webpackConfig. walk_relates plugin_leaf.
Qed.

Lemma Reachable_plugins_witness : no_plugin_registered Sample.after_first_call.
Proof.
  apply Reachable_plugins.
  apply Reachable_call, Reachable_loaded.
Defined.

(** ** Failures of a call *)

(** X8: when [prepare] throws (no entries found, or no name for an
    entry), [webpackConfig] throws the same error and has not touched
    the builder. *)
Theorem webpackConfig_prepare_throws w options target st e :
  prepare w options target = Throw e →
  webpackConfig w options target st = (Throw e, st).
Proof. intros Hp. unfold webpackConfig. rewrite M_bind_unfold, Hp. reflexivity. Qed.

Lemma webpackConfig_prepare_throws_witness :
  webpackConfig Scenario.world_without_app Sample.options "web" module_loaded
    = (Throw (Thrown "app entry not found"), module_loaded).
Proof.
  apply (webpackConfig_prepare_throws Scenario.world_without_app Sample.options "web").
  vm_compute; reflexivity.
Defined.

(** X9: a failed call is not undone.  When [babel-loader] does not
    resolve, [webpackConfig] throws the resolver's error, and the
    builder keeps what the call had done by then: the entry [index], the
    rule [createAppOrPageConfig] with its test, the entries in its
    include set, and a [babel] use. *)
Theorem webpackConfig_babel_unresolved w options target st p e :
  prepare w options target = Ok p →
  useLoader w "babel" = Throw e →
  (webpackConfig w options target st).1 = Throw e ∧
  is_Some (ChainedMap.get "index"
             (entryPoints (config (webpackConfig w options target st).2))) ∧
  ∃ r, get_rule "createAppOrPageConfig" (webpackConfig w options target st).2 = Some r ∧
       rule_test r = Some (matcher w) ∧
       CondString (entries_app (p_entries p)) ∈ rule_include r ∧
       is_Some (ChainedMap.get "babel" (rule_uses r)).
Proof.
  intros Hp Hbabel.
  destruct st as [[ep dt md cx rex ral op ofn rules plugs] evs].
  unfold webpackConfig. rewrite Hp, Hbabel. run_builder.
  split; [done|]. split.
  { rewrite ChainedMap_get_update_eq. by eexists. }
  rewrite !ChainedMap_get_update_eq. eexists. split; [done|].
  cbn [default from_option id rule_test rule_include rule_uses update_use].
  split; [done|]. split.
  - apply ChainedSet_merge_subseteq, ChainedSet_add_elem.
  - rewrite ChainedMap_get_update_eq. by eexists.
Qed.

Lemma webpackConfig_babel_unresolved_witness :
  (webpackConfig Scenario.world_without_babel Sample.options "web" module_loaded).1
    = Throw (ModuleNotFound "babel-loader") ∧
  is_Some (ChainedMap.get "index"
             (entryPoints (config (webpackConfig Scenario.world_without_babel
                                     Sample.options "web" module_loaded).2))) ∧
  ∃ r, get_rule "createAppOrPageConfig"
         (webpackConfig Scenario.world_without_babel Sample.options "web" module_loaded).2
         = Some r ∧
       rule_test r = Some (matcher Scenario.world_without_babel) ∧
       CondString "/project/src/app.js" ∈ rule_include r ∧
       is_Some (ChainedMap.get "babel" (rule_uses r)).
Proof.
  apply (webpackConfig_babel_unresolved Scenario.world_without_babel Sample.options
           "web" module_loaded
           Scenario.prepared).
  - vm_compute; reflexivity.
  - vm_compute; reflexivity.
Defined.

(** ** The top-level settings (lines 60-66) *)

Lemma relates_lift_Ok {A B} (R : relation State) (a : A) (k : A → M B) :
  relates R (k a) → relates R (lift (Ok a) ≫= k).
Proof. intros H st. apply H. Qed.

Lemma relates_after_modify {B} (R : relation State) f (k : () → M B) :
  (∀ st st', R {| config := f (config st); events := events st |} st' → R st st') →
  relates R (k ()) → relates R (modify f ≫= k).
Proof. intros Hf H st. apply Hf, H. Qed.

Lemma relates_from_modify {B} (R : relation State) f (k : () → M B) :
  (∀ st, R st {| config := f (config st); events := events st |}) →
  (∀ st, relates (keeps (R st)) (k ())) →
  relates R (modify f ≫= k).
Proof. intros Hf Hk st. apply (Hk st _), Hf. Qed.

Lemma ChainedSet_merge_elem {A} `{EqDecision A} (x : A) arr s :
  x ∈ ChainedSet.merge arr s ↔ x ∈ arr ∨ x ∈ s.
Proof.
  unfold ChainedSet.merge. revert s.
  induction arr as [|y arr IH]; intros s; simpl.
  - rewrite elem_of_nil. tauto.
  - rewrite IH, elem_of_cons. unfold ChainedSet.add. case_bool_decide.
    + split; [tauto|]. intros [[->|?]|?]; tauto.
    + rewrite elem_of_app, list_elem_of_singleton. tauto.
Qed.

Lemma ChainedSet_merge_NoDup {A} `{EqDecision A} (arr s : list A) :
  NoDup s → NoDup (ChainedSet.merge arr s).
Proof.
  unfold ChainedSet.merge. revert s.
  induction arr as [|y arr IH]; intros s Hs; simpl; [done|].
  apply IH. unfold ChainedSet.add. case_bool_decide; [done|].
  apply NoDup_app. split; [done|]. split; [|apply NoDup_singleton].
  intros x Hx ->%list_elem_of_singleton. done.
Qed.

Ltac settings_fields :=
  cbn [config cfg_devtool cfg_mode cfg_context output_path output_filename
       resolve_extensions resolve_alias].

Ltac setting_leaf :=
  apply relates_modify_rules; intros ?;
  unfold keeps, update_rule, update_plugin; settings_fields; done.

(** Walks to the statement that establishes [R], then through the rest
    of the run, which keeps it. *)
Ltac walk_to_setting :=
  unfold_chain;
  repeat first
    [ apply relates_from_modify;
      [ solve [ intros ?; settings_fields; reflexivity ]
      | intros ?; walk_relates setting_leaf ]
    | apply relates_after_modify;
      [ solve [ intros ? ? H; exact H ] | ] ].

Section Settings.

Context (w : World) (options : RemaxOptions) (target : Platform) (p : Prepared).
Hypothesis Hp : prepare w options target = Ok p.

Lemma webpackConfig_sets_devtool :
  relates (λ _ st, cfg_devtool (config st) =
             Some (if bool_decide (NODE_ENV w = Some "development")
                   then devtool_string "cheap-module-source-map" else devtool_false))
    (webpackConfig w options target).
Proof.
  unfold webpackConfig. rewrite Hp. apply relates_lift_Ok. cbv zeta. walk_to_setting.
Qed.

Lemma webpackConfig_sets_mode :
  relates (λ _ st, cfg_mode (config st) =
             Some (match NODE_ENV w with
                   | Some mode => if bool_decide (mode = "") then "development" else mode
                   | None => "development"
                   end))
    (webpackConfig w options target).
Proof.
  unfold webpackConfig. rewrite Hp. apply relates_lift_Ok. cbv zeta. walk_to_setting.
Qed.

Lemma webpackConfig_sets_context :
  relates (λ _ st, cfg_context (config st) = Some (cwd options))
    (webpackConfig w options target).
Proof.
  unfold webpackConfig. rewrite Hp. apply relates_lift_Ok. cbv zeta. walk_to_setting.
Qed.

Lemma webpackConfig_sets_output_path :
  relates (λ _ st, output_path (config st) = Some (path.join [cwd options; output options]))
    (webpackConfig w options target).
Proof.
  unfold webpackConfig. rewrite Hp. apply relates_lift_Ok. cbv zeta. walk_to_setting.
Qed.

Lemma webpackConfig_sets_output_filename :
  relates (λ _ st, output_filename (config st) = Some "[name].js")
    (webpackConfig w options target).
Proof.
  unfold webpackConfig. rewrite Hp. apply relates_lift_Ok. cbv zeta. walk_to_setting.
Qed.

Lemma webpackConfig_merges_extensions :
  relates (λ st st', resolve_extensions (config st') =
                     ChainedSet.merge (extensions w) (resolve_extensions (config st)))
    (webpackConfig w options target).
Proof.
  unfold webpackConfig. rewrite Hp. apply relates_lift_Ok. cbv zeta. walk_to_setting.
Qed.

Lemma webpackConfig_merges_alias :
  relates (λ st st', resolve_alias (config st') =
                     foldl (λ m kv, ChainedMap.set kv.1 kv.2 m)
                       (resolve_alias (config st)) (alias w options))
    (webpackConfig w options target).
Proof.
  unfold webpackConfig. rewrite Hp. apply relates_lift_Ok. cbv zeta. walk_to_setting.
Qed.

End Settings.

(** X10: a call whose [prepare] returns leaves these settings in the
    builder, whatever the builder held before and whether or not the
    call throws later: the source map and the mode that [NODE_ENV]
    selects, [options.cwd] as context,
    [path.join(options.cwd, options.output)] as output path and
    [[name].js] as output file name. *)
Theorem webpackConfig_settings w options target st p :
  prepare w options target = Ok p →
  settings_of (webpackConfig w options target st).2 =
    {| s_devtool := Some (if bool_decide (NODE_ENV w = Some "development")
                          then devtool_string "cheap-module-source-map"
                          else devtool_false);
       s_mode := Some (match NODE_ENV w with
                       | Some mode => if bool_decide (mode = "") then "development" else mode
                       | None => "development"
                       end);
       s_context := Some (cwd options);
       s_output_path := Some (path.join [cwd options; output options]);
       s_output_filename := Some "[name].js" |}.
Proof.
  intros Hp. unfold settings_of.
  rewrite (webpackConfig_sets_devtool _ _ _ _ Hp st),
    (webpackConfig_sets_mode _ _ _ _ Hp st),
    (webpackConfig_sets_context _ _ _ _ Hp st),
    (webpackConfig_sets_output_path _ _ _ _ Hp st),
    (webpackConfig_sets_output_filename _ _ _ _ Hp st).
  reflexivity.
Qed.

Lemma webpackConfig_settings_witness :
  settings_of (webpackConfig Sample.world Sample.options "web" Sample.after_first_call).2 =
    {| s_devtool := Some (devtool_string "cheap-module-source-map");
       s_mode := Some "development";
       s_context := Some "/project";
       s_output_path := Some "/project/dist";
       s_output_filename := Some "[name].js" |}.
Proof.
  eapply (webpackConfig_settings Sample.world Sample.options "web").
  vm_compute; reflexivity.
Defined.

(** X11: with [NODE_ENV] unset or empty the two settings of lines 60-61
    disagree: the mode falls back to [development], the source map does
    not ([devtool] is [false]). *)
Theorem webpackConfig_mode_without_NODE_ENV w options target st p :
  prepare w options target = Ok p →
  NODE_ENV w = None ∨ NODE_ENV w = Some "" →
  cfg_mode (config (webpackConfig w options target st).2) = Some "development" ∧
  cfg_devtool (config (webpackConfig w options target st).2) = Some devtool_false.
Proof.
  intros Hp Henv.
  rewrite (webpackConfig_sets_devtool _ _ _ _ Hp st),
    (webpackConfig_sets_mode _ _ _ _ Hp st).
  by destruct Henv as [-> | ->].
Qed.

Lemma webpackConfig_mode_without_NODE_ENV_witness :
  cfg_mode (config (webpackConfig Scenario.world_without_NODE_ENV Sample.options "web"
                      module_loaded).2) = Some "development" ∧
  cfg_devtool (config (webpackConfig Scenario.world_without_NODE_ENV Sample.options "web"
                         module_loaded).2) = Some devtool_false.
Proof.
  eapply (webpackConfig_mode_without_NODE_ENV Scenario.world_without_NODE_ENV
            Sample.options "web").
  - vm_compute; reflexivity.
  - by left.
Defined.

(** X12: after a call whose [prepare] returns, the extensions the
    resolver tries are those the builder held before and those of
    [extensions]; none is dropped, nothing else is added. *)
Theorem webpackConfig_extensions w options target st p x :
  prepare w options target = Ok p →
  x ∈ resolve_extensions (config (webpackConfig w options target st).2) ↔
  x ∈ extensions w ∨ x ∈ resolve_extensions (config st).
Proof.
  intros Hp. rewrite (webpackConfig_merges_extensions _ _ _ _ Hp st).
  apply ChainedSet_merge_elem.
Qed.

Lemma webpackConfig_extensions_witness :
  ".tsx" ∈ resolve_extensions
             (config (webpackConfig Sample.world Sample.options "web" module_loaded).2) ↔
  ".tsx" ∈ extensions Sample.world ∨ ".tsx" ∈ resolve_extensions (config module_loaded).
Proof.
  eapply (webpackConfig_extensions Sample.world Sample.options "web").
  vm_compute; reflexivity.
Defined.

Lemma ChainedMap_get_absent {V} (k : string) (m : list (string * V)) :
  k ∉ ChainedMap.keys m → ChainedMap.get k m = None.
Proof.
  unfold ChainedMap.keys. induction m as [|[k0 v0] m IH]; simpl; [done|].
  intros Hk. apply not_elem_of_cons in Hk as [Hne Hk].
  destruct (String.eqb k0 k) eqn:E; [by apply String.eqb_eq in E|by apply IH].
Qed.

Lemma ChainedMap_get_merge {V} (k : string) (obj m : list (string * V)) :
  NoDup (ChainedMap.keys obj) →
  ChainedMap.get k (foldl (λ m kv, ChainedMap.set kv.1 kv.2 m) m obj) =
    match ChainedMap.get k obj with
    | Some v => Some v
    | None => ChainedMap.get k m
    end.
Proof.
  unfold ChainedMap.keys. revert m.
  induction obj as [|[k1 v1] obj IH]; intros m Hnd; simpl; [done|].
  apply NoDup_cons in Hnd as [Hk1 Hnd]. rewrite (IH _ Hnd), ChainedMap_get_set.
  destruct (String.eqb k1 k) eqn:E; [|done].
  apply String.eqb_eq in E as ->. by rewrite (ChainedMap_get_absent k obj Hk1).
Qed.

(** X13: after a call whose [prepare] returns, an alias that
    [alias(options)] defines resolves to the target given there, also
    when the builder held another target for it; any other alias
    resolves as before the call. *)
Theorem webpackConfig_alias w options target st p k :
  prepare w options target = Ok p →
  NoDup (ChainedMap.keys (alias w options)) →
  ChainedMap.get k (resolve_alias (config (webpackConfig w options target st).2)) =
    match ChainedMap.get k (alias w options) with
    | Some v => Some v
    | None => ChainedMap.get k (resolve_alias (config st))
    end.
Proof.
  intros Hp Hnd. rewrite (webpackConfig_merges_alias _ _ _ _ Hp st).
  by apply ChainedMap_get_merge.
Qed.

Lemma webpackConfig_alias_witness :
  ChainedMap.get "@"
    (resolve_alias (config (webpackConfig Sample.world Sample.options "web"
                              Sample.after_first_call).2)) = Some "/project/src".
Proof.
  eapply (webpackConfig_alias Sample.world Sample.options "web" Sample.after_first_call _ "@").
  - vm_compute; reflexivity.
  - apply (bool_decide_unpack _). vm_compute; exact I.
Defined.

Ltac extensions_leaf :=
  apply relates_modify_rules; intros ?;
  unfold keeps, update_rule, update_plugin; cbn [config resolve_extensions];
  first [ done | apply ChainedSet_merge_NoDup ].

(** X14: in every builder state calls can produce, no extension is
    listed twice: repeated calls do not grow the list. *)
Theorem Reachable_extensions st :
  Reachable st → NoDup (resolve_extensions (config st)).
Proof.
  induction 1 as [|w options target st _ IH]; [apply NoDup_nil_2|].
  revert IH. generalize st.
  change (relates (keeps (λ st, NoDup (resolve_extensions (config st))))
            (webpackConfig w options target)).
  unfold webpackConfig. walk_relates extensions_leaf.
Qed.

Lemma Reachable_extensions_witness :
  NoDup (resolve_extensions
           (config (webpackConfig Sample.world Sample.options_plain "web"
                      Sample.after_first_call).2)).
Proof.
  apply Reachable_extensions.
  apply Reachable_call, Reachable_call, Reachable_loaded.
Defined.

(** ** What a call throws *)

(** One [useLoader] call of the run: it returns, or the run ends
    there. *)
Ltac resolve_or_throw w id :=
  cbv iota; cbn [foldr app];
  destruct (useLoader w id); [|run_builder; reflexivity].

(** X15: what a call throws is determined by the collaborators, not by
    the builder: the error of [prepare] if it throws; otherwise the
    error of the first loader, in the order of the body, that does not
    resolve; otherwise the ReferenceError for [VirtualModulePlugin]. *)
Theorem webpackConfig_throws_exactly w options target st :
  (webpackConfig w options target st).1 = Throw (thrown_by w options target).
Proof.
  destruct st as [[ep dt md cx rex ral op ofn rules plugs] evs].
  unfold thrown_by, first_failure, required_loaders, webpackConfig, optional_preprocessor.
  destruct (prepare w options target) as [p|e]; [|reflexivity].
  resolve_or_throw w "babel". resolve_or_throw w "postcss".
  destruct (styleConfig_enabled w "less"); cbv iota; [resolve_or_throw w "less"|].
  all: destruct (styleConfig_enabled w "node-sass"); cbv iota; [resolve_or_throw w "sass"|].
  all: destruct (styleConfig_enabled w "stylus"); cbv iota; [resolve_or_throw w "stylus"|].
  all: resolve_or_throw w "css".
  all: destruct (enabled (getCssModuleConfig w (cssModules options))).
  all: resolve_or_throw w "json"; resolve_or_throw w "remax-define";
    resolve_or_throw w "file"; resolve_or_throw w "resolve-platform".
  all: run_builder; reflexivity.
Qed.

(** ** The rules a run declares *)

Lemma ChainedMap_keys_set_add {V} (k : string) (v : V) m :
  ChainedMap.keys (ChainedMap.set k v m) = ChainedSet.add k (ChainedMap.keys m).
Proof.
  unfold ChainedSet.add, ChainedMap.keys.
  induction m as [|[k0 v0] m IH]; [done|].
  cbn [ChainedMap.set]. destruct (String.eqb k0 k) eqn:E.
  - apply String.eqb_eq in E as ->. rewrite bool_decide_eq_true_2; [done|by left].
  - rewrite fmap_cons, IH. apply String.eqb_neq in E. rewrite fmap_cons. cbn [fst].
    destruct (decide (k ∈ m.*1)) as [Hin|Hin].
    + rewrite !bool_decide_eq_true_2; [done|by right|done].
    + rewrite !bool_decide_eq_false_2; [done| |done].
      intros [?|?]%elem_of_cons; [by subst|done].
Qed.

Lemma ChainedMap_keys_update {V} (k : string) (fresh : V) f m :
  ChainedMap.keys (ChainedMap.update k fresh f m) = ChainedSet.add k (ChainedMap.keys m).
Proof. apply ChainedMap_keys_set_add. Qed.

Lemma ChainedSet_add_idem {A} `{EqDecision A} (x : A) s :
  ChainedSet.add x (ChainedSet.add x s) = ChainedSet.add x s.
Proof.
  unfold ChainedSet.add at 1. rewrite bool_decide_eq_true_2; [done|].
  apply ChainedSet_add_elem.
Qed.

(** X16: a run that gets to plugin registration declares the rules of
    [declared_rules], in that order, behind the rules the builder held:
    a rule the builder held keeps its place, a new one goes last. *)
Theorem webpackConfig_rule_names w options target st :
  is_Ok (prepare w options target) →
  Forall (λ id, is_Ok (useLoader w id)) (required_loaders w) →
  rule_names (webpackConfig w options target st).2 =
    ChainedSet.merge (declared_rules w options) (rule_names st).
Proof.
  intros Hp Hl.
  destruct st as [[ep dt md cx rex ral op ofn rules plugs] evs].
  unfold rule_names, declared_rules, required_loaders, webpackConfig,
    optional_preprocessor in *.
  destruct (prepare w options target) as [p|]; [|done].
  resolve_base Hl.
  destruct (styleConfig_enabled w "less"), (styleConfig_enabled w "node-sass"),
    (styleConfig_enabled w "stylus").
  all: resolve_required Hl.
  all: destruct (enabled (getCssModuleConfig w (cssModules options))).
  all: run_to_registration.
  all: rewrite !ChainedMap_keys_update, !ChainedSet_add_idem.
  all: unfold ChainedSet.merge; cbn [app foldl]; reflexivity.
Qed.

Lemma webpackConfig_rule_names_witness :
  rule_names (webpackConfig Sample.world Sample.options "web" module_loaded).2 =
    ["createAppOrPageConfig"; "compilation"; "styles"; "cssModulesStyles"; "json";
     "remaxDefineVariables"; "images"; "resolvePlatformFiles"].
Proof.
  apply (webpackConfig_rule_names Sample.world Sample.options "web" module_loaded).
  - vm_compute; exact I.
  - apply Forall_forall. intros id _. apply Sample_loaders_resolve.
Defined.

#[local] Instance same_rule_preorder name : PreOrder (same_rule name).
Proof.
  split.
  - by intros st.
  - intros a b c Hab Hbc. unfold same_rule in *. by rewrite Hbc.
Qed.

Ltac same_rule_leaf :=
  apply relates_modify_rules; intros ?;
  unfold same_rule, get_rule, update_rule, update_plugin; cbn [config module_rules];
  first [ done | apply ChainedMap_get_update_ne; congruence ].

(** X17: a call touches no rule but those it declares: a rule of any
    other name is, after the call, what it was before.  With CSS
    modules disabled this holds for the rule [cssModulesStyles]: no call
    creates or changes it. *)
Theorem webpackConfig_other_rules w options target st name :
  name ∉ declared_rules w options →
  get_rule name (webpackConfig w options target st).2 = get_rule name st.
Proof.
  intros Hname. revert st.
  change (relates (same_rule name) (webpackConfig w options target)).
  unfold declared_rules in Hname. unfold webpackConfig. cbv zeta.
  destruct (enabled (getCssModuleConfig w (cssModules options))).
  all: cbn [app] in Hname.
  all: repeat (let H := fresh in apply not_elem_of_cons in Hname as [H Hname]).
  all: walk_relates same_rule_leaf.
Qed.

Lemma webpackConfig_other_rules_witness :
  get_rule "cssModulesStyles"
    (webpackConfig Sample.world Sample.options_plain "web" Sample.after_first_call).2
  = get_rule "cssModulesStyles" Sample.after_first_call.
Proof.
  apply (webpackConfig_other_rules Sample.world Sample.options_plain "web").
  apply (bool_decide_unpack _). vm_compute; exact I.
Defined.

(** ** Which rules are restricted *)

Lemma keeps_conditions_update name f :
  (name ≠ "styles" → ∀ r, rule_exclude (f r) = rule_exclude r) →
  (name ≠ "createAppOrPageConfig" → name ≠ "cssModulesStyles" →
   ∀ r, rule_include (f r) = rule_include r) →
  relates (keeps conditions_where_declared) (modify (update_rule name f)).
Proof.
  intros He Hi st Hst name' r. unfold conditions_where_declared, get_rule in *. simpl.
  destruct (decide (name = name')) as [<-|Hne].
  - rewrite ChainedMap_get_update_eq. intros [= <-].
    destruct (ChainedMap.get name (module_rules (config st))) as [r0|] eqn:E; simpl.
    + destruct (Hst _ _ E) as [He0 Hi0]. split.
      * intros Hn. rewrite He by done. by apply He0.
      * intros Hn1 Hn2. rewrite Hi by done. by apply Hi0.
    + split.
      * intros Hn. by rewrite He.
      * intros Hn1 Hn2. by rewrite Hi.
  - rewrite ChainedMap_get_update_ne by done. apply Hst.
Qed.

Lemma keeps_conditions_other f :
  (∀ c, module_rules (f c) = module_rules c) →
  relates (keeps conditions_where_declared) (modify f).
Proof.
  intros Hf st Hst name r. unfold conditions_where_declared, get_rule in *. simpl.
  rewrite Hf. apply Hst.
Qed.

Ltac keeps_conditions_leaf :=
  first
    [ apply keeps_conditions_update;
      [ let Hn := fresh in intros Hn ?; first [congruence|reflexivity]
      | let Hn := fresh in let Hm := fresh in
        intros Hn Hm ?; first [congruence|reflexivity] ]
    | apply keeps_conditions_other; reflexivity ].

Lemma Reachable_conditions st : Reachable st → conditions_where_declared st.
Proof.
  induction 1 as [|w options target st _ IH]; [by intros name r|].
  revert IH. generalize st.
  change (relates (keeps conditions_where_declared) (webpackConfig w options target)).
  unfold webpackConfig. walk_relates keeps_conditions_leaf.
Qed.

(** X18: in every builder state calls can produce, the rules
    [compilation], [json], [remaxDefineVariables], [images] and
    [resolvePlatformFiles] have neither include nor exclude
    conditions: each claims exactly the resources its test matches. *)
Theorem Reachable_unrestricted_rules regexp_test st name r resource :
  Reachable st →
  name ∈ unrestricted_rules →
  get_rule name st = Some r →
  rule_include r = [] ∧ rule_exclude r = [] ∧
  rule_claims regexp_test r resource =
    match rule_test r with
    | Some re => regexp_test re resource
    | None => true
    end.
Proof.
  intros Hst Hname Hr.
  destruct (Reachable_conditions st Hst name r Hr) as [He Hi].
  assert (name ≠ "styles" ∧ name ≠ "createAppOrPageConfig" ∧ name ≠ "cssModulesStyles")
    as (H1 & H2 & H3).
  { unfold unrestricted_rules in Hname.
    repeat (apply elem_of_cons in Hname as [->|Hname]; [done|]).
    by apply elem_of_nil in Hname. }
  unfold rule_claims. rewrite He, Hi by done. simpl.
  split; [done|]. split; [done|]. by rewrite !andb_true_r.
Qed.

Lemma Reachable_unrestricted_rules_witness :
  ∃ r, get_rule "compilation" Sample.after_first_call = Some r ∧
    rule_include r = [] ∧ rule_exclude r = [] ∧
    rule_claims Scenario.regexp_test r "/project/src/app.js" =
      match rule_test r with
      | Some re => Scenario.regexp_test re "/project/src/app.js"
      | None => true
      end.
Proof.
  eexists. split; [vm_compute; reflexivity|].
  apply (Reachable_unrestricted_rules Scenario.regexp_test Sample.after_first_call
           "compilation").
  - apply Reachable_call, Reachable_loaded.
  - apply (bool_decide_unpack _). vm_compute; exact I.
  - vm_compute; reflexivity.
Defined.

(** ** The script rules (lines 68-93) *)

Lemma rule_has_update name (P : Rule → Prop) f st :
  P (f (default new_Rule (get_rule name st))) →
  rule_has name P {| config := update_rule name f (config st); events := events st |}.
Proof.
  intros HP. eexists. split; [|exact HP].
  unfold get_rule. cbn [config module_rules update_rule]. apply ChainedMap_get_update_eq.
Qed.

Lemma keeps_rule_has_update name (P : Rule → Prop) n f :
  (n = name → ∀ r, P r → P (f r)) →
  relates (keeps (rule_has name P)) (modify (update_rule n f)).
Proof.
  intros Hf st (r & Hr & HP). unfold rule_has, get_rule in *. simpl.
  destruct (decide (n = name)) as [->|Hne].
  - rewrite ChainedMap_get_update_eq, Hr. eexists. split; [done|]. by apply Hf.
  - rewrite ChainedMap_get_update_ne by done. by exists r.
Qed.

Lemma keeps_rule_has_other name (P : Rule → Prop) f :
  (∀ c, module_rules (f c) = module_rules c) →
  relates (keeps (rule_has name P)) (modify f).
Proof.
  intros Hf st (r & Hr & HP). unfold rule_has, get_rule in *. simpl.
  rewrite Hf. by exists r.
Qed.

(** [P] holds of the rule a chained call has just changed. *)
Ltac rule_has_now :=
  cbn [rule_test rule_include rule_exclude rule_uses update_use];
  first
    [ reflexivity
    | apply ChainedSet_add_elem
    | apply ChainedSet_merge_elem; left; by apply list_elem_of_fmap_2
    | unfold options_of_use; cbn [rule_uses update_use];
      rewrite ChainedMap_get_update_eq; reflexivity ].

Ltac rule_has_leaf :=
  first
    [ apply keeps_rule_has_update;
      let Hn := fresh in let Hr := fresh in
      intros Hn ? Hr;
      first [ discriminate Hn | exact Hr | apply ChainedSet_merge_subseteq, Hr ]
    | apply keeps_rule_has_other; reflexivity ].

(** Walks to the chained call that makes [rule_has name P] true, then
    through the rest of the run, which keeps it. *)
Ltac walk_to_rule_has :=
  unfold_chain;
  repeat lazymatch goal with
    | |- relates _ (lift (Ok _) ≫= _) => apply relates_lift_Ok
    | |- relates _ (modify _ ≫= _) =>
        first
          [ apply relates_from_modify;
            [ solve [ intros ?; apply rule_has_update; rule_has_now ]
            | intros ?; walk_relates rule_has_leaf ]
          | apply relates_after_modify; [ solve [ intros ? ? H; exact H ] | ] ]
    end.

Section ScriptRules.

Context (w : World) (options : RemaxOptions) (target : Platform) (p : Prepared).
Context (babel : string).
Hypothesis Hp : prepare w options target = Ok p.
Hypothesis Hbabel : useLoader w "babel" = Ok babel.

Ltac script_rule_fact :=
  unfold webpackConfig; rewrite Hp, Hbabel; apply relates_lift_Ok; cbv zeta;
  walk_to_rule_has.

Lemma webpackConfig_app_rule_test :
  relates (λ _, rule_has "createAppOrPageConfig" (λ r, rule_test r = Some (matcher w)))
    (webpackConfig w options target).
Proof. script_rule_fact. Qed.

Lemma webpackConfig_app_rule_include e :
  e ∈ entries_app (p_entries p) :: entries_pages (p_entries p) →
  relates (λ _, rule_has "createAppOrPageConfig" (λ r, CondString e ∈ rule_include r))
    (webpackConfig w options target).
Proof. intros [->|He]%elem_of_cons; script_rule_fact. Qed.

Lemma webpackConfig_app_rule_options :
  relates (λ _, rule_has "createAppOrPageConfig" (λ r,
             options_of_use "babel" r =
               Some (BabelOptions [babel_app (entries_app (p_entries p));
                                   babel_page (entries_pages (p_entries p))] false)))
    (webpackConfig w options target).
Proof. script_rule_fact. Qed.

Lemma webpackConfig_compilation_test :
  relates (λ _, rule_has "compilation" (λ r, rule_test r = Some (matcher w)))
    (webpackConfig w options target).
Proof. script_rule_fact. Qed.

Lemma webpackConfig_compilation_options :
  relates (λ _, rule_has "compilation" (λ r,
             options_of_use "babel" r =
               Some (BabelOptions [babel_nativeComponents options;
                                   babel_components options] true)))
    (webpackConfig w options target).
Proof. script_rule_fact. Qed.

End ScriptRules.

(** X19: a script that [matcher] matches and that lies at or under an
    entry path is claimed by two babel rules once [babel-loader]
    resolves, however the call goes on: by [createAppOrPageConfig], with
    the plugins [app] and [page] and no React preset, and by
    [compilation], with the component plugins and the React preset. *)
Theorem entries_compiled_twice regexp_test w options target st p resource :
  Reachable st →
  prepare w options target = Ok p →
  is_Ok (useLoader w "babel") →
  regexp_test (matcher w) resource = true →
  under_an_entry (p_entries p) resource = true →
  ∃ r1 r2,
    get_rule "createAppOrPageConfig" (webpackConfig w options target st).2 = Some r1 ∧
    get_rule "compilation" (webpackConfig w options target st).2 = Some r2 ∧
    rule_claims regexp_test r1 resource = true ∧
    rule_claims regexp_test r2 resource = true ∧
    options_of_use "babel" r1 =
      Some (BabelOptions [babel_app (entries_app (p_entries p));
                          babel_page (entries_pages (p_entries p))] false) ∧
    options_of_use "babel" r2 =
      Some (BabelOptions [babel_nativeComponents options; babel_components options] true).
Proof.
  intros Hst Hp Hbabel Hm Hu.
  destruct (useLoader w "babel") as [babel|] eqn:Hb; [clear Hbabel|done].
  pose proof (Reachable_conditions _ (Reachable_call w options target st Hst)) as Hinv.
  apply existsb_exists in Hu as (e & He & Hpre). apply list_elem_of_In in He.
  destruct (webpackConfig_app_rule_test w options target p babel Hp Hb st)
    as (r1 & Hr1 & Ht1).
  destruct (webpackConfig_app_rule_include w options target p babel Hp Hb e He st)
    as (r1' & Hr1' & Hi1).
  destruct (webpackConfig_app_rule_options w options target p babel Hp Hb st)
    as (r1'' & Hr1'' & Ho1).
  destruct (webpackConfig_compilation_test w options target p babel Hp Hb st)
    as (r2 & Hr2 & Ht2).
  destruct (webpackConfig_compilation_options w options target p babel Hp Hb st)
    as (r2' & Hr2' & Ho2).
  rewrite Hr1 in Hr1', Hr1''. injection Hr1' as <-. injection Hr1'' as <-.
  rewrite Hr2 in Hr2'. injection Hr2' as <-.
  destruct (Hinv _ _ Hr1) as [He1 _]. destruct (Hinv _ _ Hr2) as [He2 Hi2].
  exists r1, r2. split; [done|]. split; [done|]. split.
  { apply (rule_claims_included regexp_test r1 (matcher w) (CondString e));
      [done|done|done|done|by apply He1]. }
  split; [|done].
  unfold rule_claims. rewrite Ht2, Hm, Hi2, He2 by done. reflexivity.
Qed.

Lemma entries_compiled_twice_witness :
  ∃ r1 r2,
    get_rule "createAppOrPageConfig"
      (webpackConfig Scenario.world_without_NODE_ENV Sample.options "web"
         Sample.after_first_call).2 = Some r1 ∧
    get_rule "compilation"
      (webpackConfig Scenario.world_without_NODE_ENV Sample.options "web"
         Sample.after_first_call).2 = Some r2 ∧
    rule_claims Scenario.regexp_test r1 "/project/src/pages/index.js" = true ∧
    rule_claims Scenario.regexp_test r2 "/project/src/pages/index.js" = true ∧
    options_of_use "babel" r1 =
      Some (BabelOptions [babel_app "/project/src/app.js";
                          babel_page ["/project/src/pages/index.js";
                                      "/project/src/pages/about.tsx"]] false) ∧
    options_of_use "babel" r2 =
      Some (BabelOptions [babel_nativeComponents Sample.options;
                          babel_components Sample.options] true).
Proof.
  apply (entries_compiled_twice Scenario.regexp_test Scenario.world_without_NODE_ENV
           Sample.options "web" Sample.after_first_call Scenario.prepared
           "/project/src/pages/index.js").
  - apply Reachable_call, Reachable_loaded.
  - vm_compute; reflexivity.
  - vm_compute; exact I.
  - vm_compute; reflexivity.
  - vm_compute; reflexivity.
Defined.

(** ** The asset rules (lines 162-184) *)

Lemma returns_ret {A} (a : A) : returns (mret a : M A).
Proof. by intros st. Qed.

Lemma returns_modify f : returns (modify f).
Proof. by intros st. Qed.

Lemma returns_lift_Ok {A} (a : A) : returns (lift (Ok a)).
Proof. by intros st. Qed.

Lemma returns_bind {A B} (m : M A) (k : A → M B) :
  returns m → (∀ a, returns (k a)) → returns (m ≫= k).
Proof.
  intros Hm Hk st. rewrite M_bind_unfold. specialize (Hm st).
  destruct (m st) as [[a|e] st']; [apply Hk|done].
Qed.

Lemma returns_forEach {A} (l : list A) (f : A → M ()) :
  (∀ x, returns (f x)) → returns (forEach l f).
Proof.
  intros Hf. induction l as [|x l IH]; [apply returns_ret|].
  apply returns_bind; [apply Hf|by intros _].
Qed.

Lemma relates_after_returns {A B} (I : State → Prop) (m : M A) (k : A → M B) :
  returns m → (∀ a, relates (λ _, I) (k a)) → relates (λ _, I) (m ≫= k).
Proof.
  intros Hm Hk st. rewrite M_bind_unfold. specialize (Hm st).
  destruct (m st) as [[a|e] st']; [apply Hk|done].
Qed.

Lemma relates_after_lift {A B} (I : State → Prop) (r : Res A) (k : A → M B) :
  returns (lift r) → (∀ a, r = Ok a → relates (λ _, I) (k a)) →
  relates (λ _, I) (lift r ≫= k).
Proof.
  intros Hr Hk st. specialize (Hr st). rewrite M_bind_unfold. unfold lift in *. simpl in *.
  destruct r as [a|e]; [by apply Hk|done].
Qed.

Lemma ChainedMap_update_elem {V} (k : string) (fresh : V) f m :
  (k, f (default fresh (ChainedMap.get k m))) ∈ ChainedMap.update k fresh f m.
Proof.
  unfold ChainedMap.update. generalize (f (default fresh (ChainedMap.get k m))).
  intros v. induction m as [|[k0 v0] m IH]; simpl; [by left|].
  destruct (String.eqb k0 k) eqn:E.
  - apply String.eqb_eq in E as ->. by left.
  - by right.
Qed.

Lemma use_sequence_update id g r :
  (id, use_loader (g (default new_Use (ChainedMap.get id (rule_uses r)))))
    ∈ use_sequence (update_use id g r).
Proof.
  unfold use_sequence. cbn [rule_uses update_use].
  apply (list_elem_of_fmap_2 (λ nu : string * Use, (nu.1, use_loader nu.2)) _ (_, _)),
    ChainedMap_update_elem.
Qed.

Lemma returns_lift {A} (r : Res A) : is_Ok r → returns (lift r).
Proof. by intros Hr st. Qed.

Ltac walk_returns loader :=
  repeat first
    [ progress cbv beta zeta
    | lazymatch goal with
      | |- returns (_ ≫= _) => apply returns_bind; [|intros ?]
      | |- returns (forEach _ _) => apply returns_forEach; intros ?
      | |- returns (lift (useLoader _ _)) => loader
      | |- returns (if styleConfig_enabled _ _ then _ else _) => loader
      | |- returns (mret _) => apply returns_ret
      | |- returns (modify _) => apply returns_modify
      | |- returns (if ?b then _ else _) => destruct b
      end
    | progress unfold_chain ].

(** Walks through statements that return to the chained call that
    makes [rule_has name P] true, then through the rest of the run,
    which keeps it. *)
Ltac walk_to_rule_has_now loader solve_now :=
  unfold_chain;
  repeat lazymatch goal with
    | |- relates _ (lift (useLoader _ _) ≫= _) =>
        apply relates_after_lift; [ solve [ loader ] | intros ? ? ]
    | |- relates _ (_ ≫= _) =>
        first
          [ apply relates_from_modify;
            [ solve [ intros ?; apply rule_has_update; solve_now ]
            | intros ?; walk_relates rule_has_leaf ]
          | apply relates_after_returns; [ solve [ walk_returns loader ] | intros ? ] ]
    end.

Section AssetRules.

Context (w : World) (options : RemaxOptions) (target : Platform).
Hypothesis Hp : is_Ok (prepare w options target).
Hypothesis Hl : Forall (λ id, is_Ok (useLoader w id)) (required_loaders w).

Lemma required_loader_returns id :
  id ∈ ["babel"; "postcss"; "css"; "json"; "remax-define"; "file"; "resolve-platform"] →
  returns (lift (useLoader w id)).
Proof using Hl.
  intros Hid. apply returns_lift. rewrite Forall_forall in Hl. apply Hl.
  unfold required_loaders. rewrite !elem_of_app.
  repeat (apply elem_of_cons in Hid as [->|Hid]);
    [left|left|do 4 right|do 4 right|do 4 right|do 4 right|do 4 right|
     by apply elem_of_nil in Hid].
  all: apply (bool_decide_unpack _); vm_compute; exact I.
Qed.

Lemma optional_preprocessor_returns module name id :
  (module, id) ∈ [("less", "less"); ("node-sass", "sass"); ("stylus", "stylus")] →
  returns (optional_preprocessor w module name id).
Proof using Hl.
  intros Hid. unfold optional_preprocessor.
  destruct (styleConfig_enabled w module) eqn:Hen; [|apply returns_ret].
  apply returns_bind; [|intros ?; apply returns_ret].
  apply returns_lift. rewrite Forall_forall in Hl. apply Hl.
  unfold required_loaders. rewrite !elem_of_app.
  repeat (apply elem_of_cons in Hid as [[= -> ->]|Hid]);
    [| | |by apply elem_of_nil in Hid].
  all: rewrite Hen.
  - right; left. by left.
  - do 2 right; left. by left.
  - do 3 right; left. by left.
Qed.

Ltac loader_returns :=
  first
    [ apply required_loader_returns; apply (bool_decide_unpack _); vm_compute; exact I
    | lazymatch goal with
      | |- returns (if styleConfig_enabled _ ?module then lift (useLoader _ ?id) ≫= _
                    else _) =>
          apply (optional_preprocessor_returns module _ id);
          apply (bool_decide_unpack _); vm_compute; exact I
      end ].

Lemma webpackConfig_asset_rule_test name test id :
  (name, test, id) ∈ asset_rules w →
  relates (λ _, rule_has name (λ r, rule_test r = Some test))
    (webpackConfig w options target).
Proof using Hp Hl.
  intros Hname. unfold asset_rules in Hname. unfold webpackConfig.
  destruct (prepare w options target) as [p|]; [clear Hp|done].
  repeat (apply elem_of_cons in Hname as [[= -> -> ->]|Hname]);
    try (by apply elem_of_nil in Hname).
  all: apply relates_lift_Ok; cbv zeta.
  all: walk_to_rule_has_now loader_returns ltac:(reflexivity).
Qed.

Lemma webpackConfig_asset_rule_loader name test id :
  (name, test, id) ∈ asset_rules w →
  relates (λ _, rule_has name (λ r, (id, loader_of w id) ∈ use_sequence r))
    (webpackConfig w options target).
Proof using Hp Hl.
  intros Hname. unfold asset_rules in Hname. unfold webpackConfig.
  destruct (prepare w options target) as [p|]; [clear Hp|done].
  repeat (apply elem_of_cons in Hname as [[= -> -> ->]|Hname]);
    try (by apply elem_of_nil in Hname).
  all: apply relates_lift_Ok; cbv zeta.
  all: walk_to_rule_has_now loader_returns
         ltac:(unfold loader_of; cbv beta;
               match goal with H : useLoader _ _ = Ok _ |- _ => rewrite H end;
               lazymatch goal with
               | |- _ ∈ use_sequence (update_use ?id ?g ?r) =>
                   exact (use_sequence_update id g r)
               end).
Qed.

End AssetRules.

(** X20: in every builder state calls can produce, after a run that
    gets to plugin registration: the rules [json],
    [remaxDefineVariables], [images] and [resolvePlatformFiles] claim
    exactly the resources their pattern matches, and hand them to the
    loader that [useLoader] resolves for [json], [remax-define], [file]
    and [resolve-platform]. *)
Theorem asset_rules_claim regexp_test w options target st name test id resource :
  Reachable st →
  is_Ok (prepare w options target) →
  Forall (λ id, is_Ok (useLoader w id)) (required_loaders w) →
  (name, test, id) ∈ asset_rules w →
  ∃ r, get_rule name (webpackConfig w options target st).2 = Some r ∧
       rule_claims regexp_test r resource = regexp_test test resource ∧
       (id, loader_of w id) ∈ use_sequence r.
Proof.
  intros Hst Hp Hl Hname.
  pose proof (Reachable_conditions _ (Reachable_call w options target st Hst)) as Hinv.
  destruct (webpackConfig_asset_rule_test w options target Hp Hl name test id Hname st)
    as (r & Hr & Ht).
  destruct (webpackConfig_asset_rule_loader w options target Hp Hl name test id Hname st)
    as (r' & Hr' & Hu).
  rewrite Hr in Hr'. injection Hr' as <-.
  destruct (Hinv _ _ Hr) as [He Hi].
  exists r. split; [done|]. split; [|done].
  assert (name ≠ "styles" ∧ name ≠ "createAppOrPageConfig" ∧ name ≠ "cssModulesStyles")
    as (H1 & H2 & H3).
  { unfold asset_rules in Hname.
    repeat (apply elem_of_cons in Hname as [[= -> -> ->]|Hname]; [done|]).
    by apply elem_of_nil in Hname. }
  unfold rule_claims. rewrite Ht, He, Hi by done. simpl. by rewrite !andb_true_r.
Qed.

Lemma asset_rules_claim_witness :
  ∃ r, get_rule "images"
         (webpackConfig Sample.world Sample.options_plain "web" Sample.after_first_call).2
       = Some r ∧
       rule_claims Sample.regexp_test r "/project/src/logo.png"
         = Sample.regexp_test images_test "/project/src/logo.png" ∧
       ("file", loader_of Sample.world "file") ∈ use_sequence r.
Proof.
  apply (asset_rules_claim Sample.regexp_test Sample.world Sample.options_plain "web"
           Sample.after_first_call "images" images_test "file").
  - apply Reachable_call, Reachable_loaded.
  - vm_compute; exact I.
  - apply Forall_forall. intros id _. apply Sample_loaders_resolve.
  - apply (bool_decide_unpack _). vm_compute; exact I.
Defined.

(** ** The preprocessors and the CSS-module rule (lines 96-160) *)

(** X21: in the plain style rule of a run that gets to plugin
    registration, whatever the builder held before, [postcss] carries
    the path of the postcss configuration and the one plugin
    [pxToUnits]; every other enabled preprocessor carries the empty
    options object. *)
Theorem preprocessor_options w options target st name :
  is_Ok (prepare w options target) →
  Forall (λ id, is_Ok (useLoader w id)) (required_loaders w) →
  name ∈ enabled_preprocessors w →
  ∃ plain,
    get_rule "styles" (webpackConfig w options target st).2 = Some plain ∧
    options_of_use name plain =
      Some (if bool_decide (name = "postcss")
            then PostcssOptions (resolvePostcssConfig w options) [pxToUnits_plugin]
            else EmptyOptions).
Proof.
  intros Hp Hl Hname.
  destruct st as [[ep dt md cx rex ral op ofn rules plugs] evs].
  unfold webpackConfig, optional_preprocessor, enabled_preprocessors, required_loaders in *.
  destruct (prepare w options target) as [p|]; [|done].
  resolve_base Hl.
  destruct (styleConfig_enabled w "less"), (styleConfig_enabled w "node-sass"),
    (styleConfig_enabled w "stylus").
  all: resolve_required Hl.
  all: destruct (enabled (getCssModuleConfig w (cssModules options))).
  all: run_to_registration; lookup_rule.
  all: eexists; split; [reflexivity|].
  all: unfold options_of_use; cbn [app] in Hname;
    cbn [default from_option id rule_uses update_use].
  all: repeat (apply elem_of_cons in Hname as [->|Hname]);
    try (by apply elem_of_nil in Hname).
  all: lookup_rule; reflexivity.
Qed.

Lemma preprocessor_options_witness :
  ∃ plain,
    get_rule "styles"
      (webpackConfig Sample.world Sample.options "web" Sample.after_first_call).2
      = Some plain ∧
    options_of_use "less" plain = Some EmptyOptions.
Proof.
  apply (preprocessor_options Sample.world Sample.options "web" Sample.after_first_call
           "less").
  - vm_compute; exact I.
  - apply Forall_forall. intros id _. apply Sample_loaders_resolve.
  - apply (bool_decide_unpack _). vm_compute; exact I.
Defined.

Lemma ChainedMap_update_nil {V} (k : string) (fresh : V) f :
  ChainedMap.update k fresh f [] = [(k, f fresh)].
Proof. reflexivity. Qed.

Lemma ChainedMap_update_cons {V} (k k0 : string) (v0 fresh : V) f m :
  ChainedMap.update k fresh f ((k0, v0) :: m) =
    if String.eqb k0 k then (k0, f v0) :: m
    else (k0, v0) :: ChainedMap.update k fresh f m.
Proof. unfold ChainedMap.update. simpl. by destruct (String.eqb k0 k). Qed.

(** X22: with CSS modules enabled, on a builder that holds no rule
    named [cssModulesStyles] yet, a run that gets to plugin
    registration leaves the CSS-module rule tested and included by the
    module pattern, with this sequence of uses: one named by the path
    of the extraction loader itself (not [cssExtract]), [css] with
    [modules: true] and [importLoaders] equal to the number of enabled
    preprocessors, then the enabled preprocessors.  The path of the
    extraction loader must not be the name of one of the other uses. *)
Theorem module_style_rule_loaders w options target st :
  get_rule "cssModulesStyles" st = None →
  enabled (getCssModuleConfig w (cssModules options)) = true →
  is_Ok (prepare w options target) →
  Forall (λ id, is_Ok (useLoader w id)) (required_loaders w) →
  MiniCssExtractPlugin_loader w ∉ "css" :: enabled_preprocessors w →
  ∃ module_rule,
    get_rule "cssModulesStyles" (webpackConfig w options target st).2 = Some module_rule ∧
    rule_test module_rule = Some (regExp (getCssModuleConfig w (cssModules options))) ∧
    rule_include module_rule
      = [CondRegExp (regExp (getCssModuleConfig w (cssModules options)))] ∧
    use_sequence module_rule =
      (MiniCssExtractPlugin_loader w, Some (MiniCssExtractPlugin_loader w)) ::
      ("css", loader_of w "css") ::
      ((λ name, (name, loader_of w name)) <$> enabled_preprocessors w) ∧
    options_of_use "css" module_rule
      = Some (CssOptions (List.length (enabled_preprocessors w)) (Some true)).
Proof.
  intros Hfresh Hen Hp Hl Hname.
  destruct st as [[ep dt md cx rex ral op ofn rules plugs] evs].
  unfold get_rule in Hfresh. simpl in Hfresh.
  unfold webpackConfig, optional_preprocessor, enabled_preprocessors, required_loaders,
    loader_of in *.
  destruct (prepare w options target) as [p|]; [|done].
  rewrite Hen.
  generalize dependent (MiniCssExtractPlugin_loader w). intros extract Hname.
  resolve_base Hl.
  destruct (styleConfig_enabled w "less"), (styleConfig_enabled w "node-sass"),
    (styleConfig_enabled w "stylus").
  all: cbn [fmap list_fmap app] in *.
  all: resolved_everywhere; resolve_required Hl.
  all: repeat (let H := fresh in apply not_elem_of_cons in Hname as [H Hname]).
  all: repeat match goal with
       | H : _ ≠ _ |- _ => apply String.eqb_neq in H
       end.
  all: run_to_registration; lookup_rule; rewrite Hfresh.
  all: eexists; split; [reflexivity|].
  all: unfold use_sequence, options_of_use;
    cbn [default from_option id rule_test rule_include rule_exclude rule_uses update_use
         new_Rule].
  all: repeat (progress
                 (rewrite ?ChainedMap_update_nil, ?ChainedMap_update_cons, ?String.eqb_refl;
                  repeat match goal with
                  | H : String.eqb _ _ = false |- _ => rewrite !H
                  end;
                  cbn [ChainedMap.get String.eqb Ascii.eqb Bool.eqb])).
  all: split; [reflexivity|]; split; [reflexivity|]; split; reflexivity.
Qed.

Lemma module_style_rule_loaders_witness :
  ∃ module_rule,
    get_rule "cssModulesStyles"
      (webpackConfig Sample.world Sample.options "web" module_loaded).2 = Some module_rule ∧
    rule_test module_rule = Some Sample.module_regExp ∧
    rule_include module_rule = [CondRegExp Sample.module_regExp] ∧
    use_sequence module_rule =
      (MiniCssExtractPlugin_loader Sample.world,
       Some (MiniCssExtractPlugin_loader Sample.world)) ::
      ("css", loader_of Sample.world "css") ::
      ((λ name, (name, loader_of Sample.world name))
         <$> enabled_preprocessors Sample.world) ∧
    options_of_use "css" module_rule
      = Some (CssOptions (List.length (enabled_preprocessors Sample.world)) (Some true)).
Proof.
  apply (module_style_rule_loaders Sample.world Sample.options "web" module_loaded).
  - vm_compute; reflexivity.
  - vm_compute; reflexivity.
  - vm_compute; exact I.
  - apply Forall_forall. intros id _. apply Sample_loaders_resolve.
  - apply (bool_decide_unpack _). vm_compute; exact I.
Defined.
